(** * HyperLogLog cardinality estimator (hll.c): model and properties

    A shallow embedding of the estimator of [hll.c]: the register buffer, the
    hash-to-(index, rank) mapping of [HyperLogLog_add], the estimate of
    [HyperLogLog_cardinality], [HyperLogLog_merge], [HyperLogLog_set_register]
    and the bit utilities [leadingZeroCount] and [ones].

    Conventions.
    - A [uint32_t] is a [Z] in [0, 2^32); every operation that can leave the
      range in C is wrapped explicitly with [wrap32].
    - A [char] register cell is a [Z]; a store converts with [to_char].
    - A [double] is a primitive binary64 float.
    - The model starts after the argument tuple has been parsed: the
      functions take the values [PyArg_ParseTuple] has produced.  Where the
      receiving C variable is narrower than the parsed value ([k], a
      [short int] written from an [int]) the narrowing is part of the model.
    - What the host runtime decides (where the buffer of a bytearray comes
      from) is a parameter of the function that depends on it. *)

From Stdlib Require Import ZArith Lia Floats.
From stdpp Require Import base list gmap strings.

Local Open Scope Z_scope.
#[local] Set Warnings "-inexact-float".

(** ** Machine integers *)

Module U32.

Definition modulus : Z := 2 ^ 32.

(** Reduction of an integer to the value a [uint32_t] holds. *)
Definition wrap32 (z : Z) : Z := z mod modulus.

Definition in_range (z : Z) : Prop := 0 <= z < modulus.

Definition add (x y : Z) : Z := wrap32 (x + y).
Definition sub (x y : Z) : Z := wrap32 (x - y).
Definition mul (x y : Z) : Z := wrap32 (x * y).
Definition shl (x n : Z) : Z := wrap32 (Z.shiftl x n).
Definition shr (x n : Z) : Z := Z.shiftr x n.
Definition rotl (x r : Z) : Z := Z.lor (shl x r) (shr x (32 - r)).

End U32.

(** A value stored into a [char] cell: the low eight bits, read back as a
    signed byte (the extension's targets have a signed [char]).  The ranks the
    program stores are all below 128, where the conversion is the identity. *)
Definition to_char (z : Z) : Z := (z + 128) mod 256 - 128.

(** A [char] cell promoted to [int] and converted to [uint32_t], as in the
    comparison [rank > self->registers[index]] and in the assignment
    [rank = self->registers[i]]. *)
Definition char_to_u32 (c : Z) : Z := U32.wrap32 c.

(** ** Bit utilities (hll.c, lines 418-440) *)

(** [ones]: the number of bits set to 1 in [x]. *)
Definition ones (x : Z) : Z :=
  let x := U32.sub x (Z.land (U32.shr x 1) 0x55555555) in
  let x := U32.add (Z.land (U32.shr x 2) 0x33333333) (Z.land x 0x33333333) in
  let x := Z.land (U32.add (U32.shr x 4) x) 0x0F0F0F0F in
  let x := U32.add x (U32.shr x 8) in
  let x := U32.add x (U32.shr x 16) in
  Z.land x 0x0000003F.

(** [leadingZeroCount]: the number of leading zeros in [x]. *)
Definition leadingZeroCount (x : Z) : Z :=
  let x := Z.lor x (U32.shr x 1) in
  let x := Z.lor x (U32.shr x 2) in
  let x := Z.lor x (U32.shr x 4) in
  let x := Z.lor x (U32.shr x 8) in
  let x := Z.lor x (U32.shr x 16) in
  U32.sub 32 (ones x).

(** The specification's wording of the same quantity: the number of leading
    zero bits of [x] read as a [w]-bit value, counted from bit [w - 1] down to
    the first set bit; [w] when no bit is set. *)
Fixpoint leading_zero_bits (w : nat) (x : Z) : nat :=
  match w with
  | O => O
  | S w' => if Z.testbit x (Z.of_nat w') then O else S (leading_zero_bits w' x)
  end.

(** ** The hash primitive *)

(** Modelled from the spec: the 32-bit hash of section 4.2, declared in
    murmur3.h and absent from the sources; the definitions of this module are
    the steps of the published MurmurHash3 x86_32 algorithm. *)
Module Murmur3.

Definition c1 : Z := 0xcc9e2d51.
Definition c2 : Z := 0x1b873593.

Definition byte_val (b : Byte.byte) : Z := Z.of_N (Byte.to_N b).

(** A little-endian 32-bit block. *)
Definition getblock32 (b0 b1 b2 b3 : Byte.byte) : Z :=
  Z.lor (byte_val b0)
    (Z.lor (Z.shiftl (byte_val b1) 8)
       (Z.lor (Z.shiftl (byte_val b2) 16) (Z.shiftl (byte_val b3) 24))).

Definition scramble (k1 : Z) : Z :=
  U32.mul (U32.rotl (U32.mul k1 c1) 15) c2.

Definition mix_block (h1 k1 : Z) : Z :=
  let h1 := Z.lxor h1 (scramble k1) in
  let h1 := U32.rotl h1 13 in
  U32.add (U32.mul h1 5) 0xe6546b64.

Definition fmix32 (h : Z) : Z :=
  let h := Z.lxor h (U32.shr h 16) in
  let h := U32.mul h 0x85ebca6b in
  let h := Z.lxor h (U32.shr h 13) in
  let h := U32.mul h 0xc2b2ae35 in
  Z.lxor h (U32.shr h 16).

(** The block loop followed by the tail switch. *)
Fixpoint absorb (h1 : Z) (data : list Byte.byte) : Z :=
  match data with
  | b0 :: b1 :: b2 :: b3 :: rest => absorb (mix_block h1 (getblock32 b0 b1 b2 b3)) rest
  | [b0; b1; b2] =>
      let k1 := Z.lxor 0 (Z.shiftl (byte_val b2) 16) in
      let k1 := Z.lxor k1 (Z.shiftl (byte_val b1) 8) in
      let k1 := Z.lxor k1 (byte_val b0) in
      Z.lxor h1 (scramble k1)
  | [b0; b1] =>
      let k1 := Z.lxor 0 (Z.shiftl (byte_val b1) 8) in
      let k1 := Z.lxor k1 (byte_val b0) in
      Z.lxor h1 (scramble k1)
  | [b0] =>
      let k1 := Z.lxor 0 (byte_val b0) in
      Z.lxor h1 (scramble k1)
  | [] => h1
  end.

(** Modelled from the spec: the hash primitive of section 4.2, "a fixed,
    deterministic, well-distributed 32-bit hash function", which hll.c calls
    as [MurmurHash3_x86_32] and whose definition (murmur3.h, murmur3.c) is
    not among the sources.  The estimator below is stated over an arbitrary
    hash function; this instance, the published MurmurHash3 x86_32
    algorithm, only serves to run the model on concrete byte strings. *)
Definition MurmurHash3_x86_32 (key : list Byte.byte) (seed : Z) : Z :=
  let h1 := absorb (U32.wrap32 seed) key in
  let h1 := Z.lxor h1 (U32.wrap32 (Z.of_nat (length key))) in
  fmix32 h1.

End Murmur3.

(** The bytes of a string literal, for concrete inputs. *)
Definition bytes_of (s : string) : list Byte.byte := String.list_byte_of_string s.

(** ** The estimator object (hll.c, lines 8-14) *)

(** [registers] is the [char *] field: [None] is the null pointer left by
    [tp_alloc], [Some buf] the buffer obtained from [malloc]. *)
Record HyperLogLog : Type := mkHyperLogLog {
  k : Z;                         (* power, size = 2^k *)
  seed : Z;                      (* Murmur3 hash seed value *)
  size : Z;                      (* number of registers *)
  registers : option (list Z)    (* array of ranks *)
}.

Definition set_registers (self : HyperLogLog) (buf : list Z) : HyperLogLog :=
  mkHyperLogLog (k self) (seed self) (size self) (Some buf).

(** The exceptions the methods set: [ValueError] is the specification's
    InvalidArgument, [IndexError] its OutOfRange. *)
Inductive pyexc : Type :=
| ValueError (msg : string)
| IndexError (msg : string).

(** What a call does: it returns a value, or it sets an exception and
    returns the error value, in both cases leaving a state behind; or it
    accesses memory outside the register buffer, or passes to [free] a
    pointer that [malloc] did not return, which C leaves undefined. *)
Inductive outcome (S A : Type) : Type :=
| Returns (st : S) (v : A)
| Raises (st : S) (e : pyexc)
| Undefined.
Arguments Returns {S A} st v.
Arguments Raises {S A} st e.
Arguments Undefined {S A}.

(** [self->registers[i]] as an rvalue; [None] outside the buffer. *)
Definition load (self : HyperLogLog) (i : Z) : option Z :=
  match registers self with
  | Some buf => if (0 <=? i) && (i <? Z.of_nat (length buf)) then buf !! Z.to_nat i else None
  | None => None
  end.

(** [self->registers[i] = v]; [None] outside the buffer. *)
Definition store (self : HyperLogLog) (i v : Z) : option HyperLogLog :=
  match registers self with
  | Some buf =>
      if (0 <=? i) && (i <? Z.of_nat (length buf))
      then Some (set_registers self (<[Z.to_nat i := to_char v]> buf))
      else None
  | None => None
  end.

(** [for (i = start; ...; i++) body], run for [n] iterations. *)
Fixpoint for_loop {S : Type} (n : nat) (i : Z) (body : Z -> S -> option S) (s : S) : option S :=
  match n with
  | O => Some s
  | S n' => match body i s with
            | Some s' => for_loop n' (i + 1) body s'
            | None => None
            end
  end.

(** [HyperLogLog_new]: the zeroed object with the default seed. *)
Definition HyperLogLog_new : HyperLogLog := mkHyperLogLog 0 314 0 None.

(** An [int] stored through a [short int *]: format unit "i" writes four
    bytes at [&self->k], a two-byte field followed by two bytes of padding.  On
    the little-endian targets the field keeps the low 16 bits, read back as a
    signed value. *)
Definition to_short (z : Z) : Z := (z + 32768) mod 65536 - 32768.

(** [HyperLogLog_init], given the [int] parsed for [k] and the optional
    parsed [seed]. *)
Definition HyperLogLog_init (self : HyperLogLog) (k_arg : Z) (seed_arg : option Z)
  : outcome HyperLogLog unit :=
  let self :=
    mkHyperLogLog (to_short k_arg) (default (seed self) seed_arg) (size self) (registers self) in
  if (k self <? 2) || (k self >? 16)
  then Raises self (ValueError "Number of registers must be in the range [2^2, 2^16]")
  else
    let sz := U32.wrap32 (Z.shiftl 1 (k self)) in
    Returns (mkHyperLogLog (k self) (seed self) sz (Some (replicate (Z.to_nat sz) 0))) tt.

(** Construction as a caller sees it: [tp_new] followed by [tp_init]. *)
Definition construct (k_arg : Z) (seed_arg : option Z) : outcome HyperLogLog unit :=
  HyperLogLog_init HyperLogLog_new k_arg seed_arg.

(** [HyperLogLog_size], [HyperLogLog_seed]. *)
Definition HyperLogLog_size (self : HyperLogLog) : Z := size self.
Definition HyperLogLog_seed (self : HyperLogLog) : Z := seed self.

(** [HyperLogLog_registers]: a fresh bytearray holding the first [size] cells
    of the buffer; [None] when there are not that many cells to copy. *)
Definition HyperLogLog_registers (self : HyperLogLog) : option (list Z) :=
  match registers self with
  | Some buf =>
      if size self <=? Z.of_nat (length buf) then Some (take (Z.to_nat (size self)) buf) else None
  | None => None
  end.

(** The index and the rank that [HyperLogLog_add] derives from the hash
    (lines 83-87). *)
Definition add_index (self : HyperLogLog) (hash : Z) : Z :=
  U32.add (U32.shr hash (32 - k self)) 1.

Definition add_rank (self : HyperLogLog) (hash : Z) : Z :=
  U32.add (U32.sub (leadingZeroCount (U32.shr (U32.shl hash (k self)) (k self))) (k self)) 1.

(** Lines 83-90 of [HyperLogLog_add], once [*hash] is known. *)
Definition add_hash (self : HyperLogLog) (hash : Z) : outcome HyperLogLog unit :=
  (* use the first k bits as an index *)
  let index := add_index self hash in
  (* compute the rank of the remaining 32 - k bits *)
  let rank := add_rank self hash in
  match load self index with
  | Some cell =>
      if rank >? char_to_u32 cell
      then match store self index rank with
           | Some self' => Returns self' tt
           | None => Undefined
           end
      else Returns self tt
  | None => Undefined
  end.

(** [HyperLogLog_set_register], given the parsed [index] and [rank]. *)
Definition HyperLogLog_set_register (self : HyperLogLog) (index rank : Z)
  : outcome HyperLogLog unit :=
  if index <? 0 then Raises self (ValueError "Index is negative.")
  else if index >? size self
  then Raises self (IndexError "Index greater than the number of registers.")
  else if rank >? 32
  then Raises self (ValueError "Rank is greater than the maximum possible rank.")
  else if rank <? 0 then Raises self (ValueError "Rank is negative.")
  else match store self index rank with
       | Some self' => Returns self' tt
       | None => Undefined
       end.

(** ** Merge (hll.c, lines 178-211) *)

(** Objects live in a store, so that a call can name two of them, possibly
    the same one twice. *)
Definition addr : Type := nat.

(** The body of the loop of lines 203-206. *)
Definition merge_step (hllRegisters : list Z) (i : Z) (self : HyperLogLog)
  : option HyperLogLog :=
  match load self i, hllRegisters !! Z.to_nat i with
  | Some mine, Some theirs => if mine <? theirs then store self i theirs else Some self
  | _, _ => None
  end.

(** CPython's default allocator serves a request of at most 512 bytes from
    its own arenas and passes a larger one to [malloc]; a bytearray of [n]
    bytes requests [n + 1].  So the buffer of a bytearray of [n] bytes is a
    pointer from [malloc] exactly when [n + 1 > 512]. *)
Definition pymalloc_allocator (n : Z) : bool := 512 <? n + 1.

(** The runtime started with PYTHONMALLOC=malloc: every buffer is a pointer
    from [malloc]. *)
Definition libc_allocator (n : Z) : bool := true.

(** [HyperLogLog_merge], given the parsed peer object.  The peer is read
    through its [size] and [registers] methods only.  [bytearray_malloced n]
    tells whether the runtime took the buffer of a bytearray of [n] bytes from
    [malloc]: line 208 passes the buffer of the bytearray that [registers]
    returned, which the bytearray still owns, to [free].  Reference counts are
    not part of the model. *)
Definition HyperLogLog_merge (bytearray_malloced : Z -> bool) (self hll : addr)
    (heap : gmap addr HyperLogLog)
  : outcome (gmap addr HyperLogLog) unit :=
  match heap !! self, heap !! hll with
  | Some me, Some peer =>
      let hllSize := HyperLogLog_size peer in
      if negb (hllSize =? size me)
      then Raises heap (ValueError "HyperLogLogs must be the same size")
      else
        match HyperLogLog_registers peer with
        | Some hllRegisters =>
            match for_loop (Z.to_nat (size me)) 0 (merge_step hllRegisters) me with
            | Some me' =>
                (* free(hllRegisters) *)
                if bytearray_malloced (Z.of_nat (length hllRegisters))
                then Returns (<[self := me']> heap) tt
                else Undefined
            | None => Undefined
            end
        | None => Undefined
        end
  | _, _ => Undefined
  end.

(** ** Insertion and estimation, over the library primitives *)

Section Estimator.

(** [MurmurHash3_x86_32 key seed] is the word the hash primitive writes to
    [*out] for the [length key] bytes of [key]. *)
Variable MurmurHash3_x86_32 : list Byte.byte -> Z -> Z.

(** libm's natural logarithm. *)
Variable log : float -> float.

(** [HyperLogLog_add] (lines 68-94), given the parsed byte string. *)
Definition HyperLogLog_add (self : HyperLogLog) (data : list Byte.byte)
  : outcome HyperLogLog unit :=
  let hash := MurmurHash3_x86_32 data (seed self) in
  add_hash self hash.

(** [HyperLogLog_murmur3_hash] (lines 158-170). *)
Definition HyperLogLog_murmur3_hash (self : HyperLogLog) (data : list Byte.byte) : Z :=
  MurmurHash3_x86_32 data (seed self).

(** Inserting the same bytes [n] times in a row. *)
Fixpoint add_repeatedly (n : nat) (self : HyperLogLog) (data : list Byte.byte)
  : outcome HyperLogLog unit :=
  match n with
  | O => Returns self tt
  | S n' => match HyperLogLog_add self data with
            | Returns self' _ => add_repeatedly n' self' data
            | other => other
            end
  end.

(** *** [HyperLogLog_cardinality] (lines 99-153) *)

Definition two_32 : float := 4294967296.0%float.
Definition neg_two_32 : float := (-4294967296.0)%float.

(** A [uint32_t] converted to [double]. *)
Definition to_double (z : Z) : float := PrimFloat.of_uint63 (Uint63.of_Z z).

(** [pow(2, rank)]: a power of two is computed exactly. *)
Definition pow_2 (rank : Z) : float := Z.ldexp 1%float rank.

Definition cardinality_alpha (self : HyperLogLog) : float :=
  if size self =? 16 then 0.673%float
  else if size self =? 32 then 0.697%float
  else if size self =? 64 then 0.709%float
  else (0.7213 / (1.0 + 1.079 / to_double (size self)))%float.

(** The loop of lines 124-127. *)
Definition cardinality_sum (self : HyperLogLog) : option float :=
  for_loop (Z.to_nat (size self)) 0
    (fun i sum =>
       match load self i with
       | Some cell =>
           let rank := char_to_u32 cell in
           Some (sum + 1.0 / pow_2 rank)%float
       | None => None
       end)
    0.0%float.

Definition cardinality_raw_estimate (self : HyperLogLog) (sum : float) : float :=
  (cardinality_alpha self * (1 / sum) * to_double (size self) * to_double (size self))%float.

(** The loop of lines 135-138: the test is on the pointer
    [self->registers], not on the cell [self->registers[i]]. *)
Definition cardinality_zeros (self : HyperLogLog) : Z :=
  default 0
    (for_loop (Z.to_nat (size self)) 0
       (fun i zeros =>
          Some (if bool_decide (registers self = None) then U32.add zeros 1 else zeros))
       0).

(** Lines 130-150, from [raw_estimate] to the value returned. *)
Definition cardinality_estimate (self : HyperLogLog) (raw_estimate : float) : float :=
  let estimate := 0%float in
  let estimate :=
    if (raw_estimate <=? 2.5 * to_double (size self))%float
    then
      let zeros := cardinality_zeros self in
      if negb (zeros =? 0)
      then (to_double (size self) * log (to_double (size self / zeros)))%float
      else raw_estimate
    else estimate in
  let estimate :=
    if (estimate <=? (1.0 / 30.0) * two_32)%float then raw_estimate else estimate in
  let estimate :=
    if ((1.0 / 30.0) * two_32 <? estimate)%float
    then (neg_two_32 * log (1.0 - raw_estimate / two_32))%float
    else estimate in
  estimate.

Definition HyperLogLog_cardinality (self : HyperLogLog) : outcome HyperLogLog float :=
  match cardinality_sum self with
  | Some sum => Returns self (cardinality_estimate self (cardinality_raw_estimate self sum))
  | None => Undefined
  end.

End Estimator.

(** ** Valid states and the specification's vocabulary *)

Definition rank_ok (r : Z) : bool := (0 <=? r) && (r <=? 32).

(** The invariants of the data model: [k] in [[2, 16]], [size = 2^k], a buffer
    of [size] cells, every cell a rank in [[0, 32]]. *)
Definition valid (self : HyperLogLog) : bool :=
  (2 <=? k self) && (k self <=? 16) && (size self =? 2 ^ k self) &&
  match registers self with
  | Some buf => (Z.of_nat (length buf) =? size self) && forallb rank_ok buf
  | None => false
  end.

(** The index of the specification: the top [k] bits of the 32-bit hash. *)
Definition top_bits (kk hash : Z) : Z := hash / 2 ^ (32 - kk).

(** The remaining [32 - k] low-order bits of the hash. *)
Definition low_bits (kk hash : Z) : Z := hash mod 2 ^ (32 - kk).

(** The number of cells of a buffer that are 0. *)
Definition zero_registers (buf : list Z) : Z :=
  Z.of_nat (length (filter (fun r => r = 0) buf)).

(** Element-wise maximum of two register arrays. *)
Definition registers_max (a b : list Z) : list Z := zip_with Z.max a b.

(** The state a successful construction is specified to leave: [2^k] zeroed
    registers. *)
Definition fresh_estimator (kk sd : Z) : HyperLogLog :=
  mkHyperLogLog kk sd (2 ^ kk) (Some (replicate (Z.to_nat (2 ^ kk)) 0)).

(** Bits [j], [j - 1], ... of [x] are set for the top [n] positions at and
    below [j], and no bit above [j] is set: the state of the smearing steps
    of [leadingZeroCount] on a word whose top set bit is [j]. *)
Definition run_below (j n x : Z) : Prop :=
  (forall i, 0 <= i <= j -> j - i < n -> Z.testbit x i = true) /\
  (forall i, j < i -> Z.testbit x i = false).

(** A cell value that a [char] holds unchanged. *)
Definition char_range (c : Z) : Prop := -128 <= c <= 127.

(** An estimator of size 512 whose first cells hold the given ranks. *)
Definition estimator_512 (sd : Z) (ranks : list Z) : HyperLogLog :=
  set_registers (fresh_estimator 9 sd) (ranks ++ replicate (512 - length ranks) 0).

(** A store with three estimators of size 512 and one of size 1024. *)
Definition heap_512 : gmap addr HyperLogLog :=
  {[ 1%nat := estimator_512 314 [0; 3; 1; 0];
     2%nat := estimator_512 314 [2; 1; 0; 0];
     3%nat := estimator_512 314 [0; 0; 5; 1];
     4%nat := fresh_estimator 10 314 ]}.

(** A store with two estimators of size 4 and one of size 8, for concrete
    runs of merge. *)
Definition example_heap : gmap addr HyperLogLog :=
  {[ 1%nat := set_registers (fresh_estimator 2 314) [0; 3; 1; 0];
     2%nat := set_registers (fresh_estimator 2 7) [2; 1; 0; 0];
     3%nat := fresh_estimator 3 314 ]}.

(** ** Vocabulary for sequences of calls *)

(** Sequencing of two calls on one object: the second runs on the state the
    first returned; an exception or an undefined access ends the sequence. *)
Definition and_then (o : outcome HyperLogLog unit)
    (next : HyperLogLog -> outcome HyperLogLog unit) : outcome HyperLogLog unit :=
  match o with
  | Returns self' _ => next self'
  | other => other
  end.

(** Inserting the byte strings of a list, first to last. *)
Fixpoint add_all (hashfn : list Byte.byte -> Z -> Z) (self : HyperLogLog)
    (items : list (list Byte.byte)) : outcome HyperLogLog unit :=
  match items with
  | [] => Returns self tt
  | data :: rest =>
      and_then (HyperLogLog_add hashfn self data) (fun self' => add_all hashfn self' rest)
  end.

(** The number of bits set among the [w] low-order bits of [x]. *)
Fixpoint population_count (w : nat) (x : Z) : Z :=
  match w with
  | O => 0
  | S w' => Z.b2z (Z.testbit x (Z.of_nat w')) + population_count w' x
  end.

#[local] Instance byte_eq_decision : EqDecision Byte.byte := Byte.byte_eq_dec.

(** The estimator of size 512 that inserting [items] into a fresh one
    leaves, with the hash instance and the default seed. *)
Definition inserted_512 (items : list (list Byte.byte)) : HyperLogLog :=
  match add_all Murmur3.MurmurHash3_x86_32 (fresh_estimator 9 314) items with
  | Returns self' _ => self'
  | _ => fresh_estimator 9 314
  end.

(** Replaying a register snapshot into an estimator, one [set_register] call
    per cell, first cell to last; [None] as soon as a call does not return. *)
Definition replay_step (snapshot : list Z) (i : Z) (self : HyperLogLog) : option HyperLogLog :=
  match snapshot !! Z.to_nat i with
  | Some rank =>
      match HyperLogLog_set_register self i rank with
      | Returns self' _ => Some self'
      | _ => None
      end
  | None => None
  end.

Definition replay_registers (self : HyperLogLog) (snapshot : list Z) : option HyperLogLog :=
  for_loop (length snapshot) 0 (replay_step snapshot) self.

(** Two [set_register] calls on one object, one after the other. *)
Definition set_register_twice (self : HyperLogLog) (i1 r1 i2 r2 : Z)
  : outcome HyperLogLog unit :=
  and_then (HyperLogLog_set_register self i1 r1)
    (fun self' => HyperLogLog_set_register self' i2 r2).

(** An estimator of size 4 with registers 0, 3, 1, 0. *)
Definition example_estimator : HyperLogLog :=
  set_registers (fresh_estimator 2 314) [0; 3; 1; 0].

(** ** Vocabulary for the population count *)

(** The stages of [ones]: counts per pair of bits, per nibble, per byte, and
    the final sum of the four byte counts. *)
Definition ones_pairs (x : Z) : Z := U32.sub x (Z.land (U32.shr x 1) 0x55555555).
Definition ones_nibbles (x : Z) : Z :=
  U32.add (Z.land (U32.shr x 2) 0x33333333) (Z.land x 0x33333333).
Definition ones_bytes (x : Z) : Z := Z.land (U32.add (U32.shr x 4) x) 0x0F0F0F0F.
Definition ones_fold (x : Z) : Z :=
  let x := U32.add x (U32.shr x 8) in
  let x := U32.add x (U32.shr x 16) in
  Z.land x 0x0000003F.

(** The same stages on one 16-bit half of the word. *)
Definition lane_pairs (v : Z) : Z := v - Z.land (Z.shiftr v 1) 0x5555.
Definition lane_nibbles (v : Z) : Z := Z.land (Z.shiftr v 2) 0x3333 + Z.land v 0x3333.
Definition lane_bytes (v : Z) : Z := Z.land (Z.shiftr v 4 + v) 0x0F0F.

(** The integers [start], [start + 1], ..., [n] of them. *)
Fixpoint count_up (n : nat) (start : Z) : list Z :=
  match n with
  | O => []
  | S n' => start :: count_up n' (start + 1)
  end.

(** What the three lane stages do on the 16-bit value [v]: the intermediate
    values stay in range, and the two byte counts at the end add up to the
    number of bits set in [v]. *)
Definition lane_check (v : Z) : bool :=
  let a := lane_pairs v in
  let b := lane_nibbles a in
  let c := lane_bytes b in
  (0 <=? a) && (a <? 65536) && (0 <=? b) && (b <=? 0x4444) && (b mod 16 <=? 4) &&
  (0 <=? c) && (c mod 256 <=? 8) && (c / 256 <=? 8) &&
  (c mod 256 + c / 256 =? population_count 16 v).

(** * Properties *)

(** ** Bit utilities *)

Lemma wrap32_small (z : Z) : 0 <= z < 2 ^ 32 -> U32.wrap32 z = z.
Proof. intros Hz. unfold U32.wrap32, U32.modulus. apply Z.mod_small. exact Hz. Qed.

Lemma wrap32_range (z : Z) : 0 <= U32.wrap32 z < 2 ^ 32.
Proof. unfold U32.wrap32, U32.modulus. apply Z.mod_pos_bound. lia. Qed.

(** On a block of [n] low ones the population count is [n]. *)
Lemma ones_low_block (n : nat) : (n <= 32)%nat -> ones (Z.ones (Z.of_nat n)) = Z.of_nat n.
Proof.
  intros Hn.
  do 33 (destruct n as [|n]; [vm_compute; reflexivity|]).
  lia.
Qed.

(** One smearing step [x |= x >> s] extends the run of ones below the top
    bit [j] from length [n] to length [n + s]. *)
Lemma run_below_step (j n s x : Z) :
  0 <= j -> 0 <= s <= n -> run_below j n x ->
  run_below j (n + s) (Z.lor x (U32.shr x s)).
Proof.
  intros Hj Hs [Hlow Hhigh]. unfold U32.shr. split; intros i Hi.
  - intros Hd. rewrite Z.lor_spec, Z.shiftr_spec by lia.
    destruct (Z_lt_dec (j - i) n) as [Hlt|Hge].
    + rewrite Hlow by lia. reflexivity.
    + rewrite (Hlow (i + s)) by lia. apply orb_true_r.
  - rewrite Z.lor_spec, Z.shiftr_spec by lia.
    rewrite !Hhigh by lia. reflexivity.
Qed.

Lemma run_below_start (x : Z) : 0 < x -> run_below (Z.log2 x) 1 x.
Proof.
  intros Hx. split; intros i Hi.
  - intros Hd. replace i with (Z.log2 x) by lia. apply Z.bit_log2. exact Hx.
  - apply Z.bits_above_log2; lia.
Qed.

Lemma run_below_full (j x : Z) :
  0 <= j -> run_below j (j + 1) x -> x = Z.ones (j + 1).
Proof.
  intros Hj [Hlow Hhigh]. apply Z.bits_inj'. intros i Hi.
  destruct (Z_lt_dec i (j + 1)) as [Hlt|Hge].
  - rewrite Z.ones_spec_low by lia. apply Hlow; lia.
  - rewrite Z.ones_spec_high by lia. apply Hhigh; lia.
Qed.

Lemma run_below_weaken (j n m x : Z) : m <= n -> run_below j n x -> run_below j m x.
Proof. intros Hmn [Hlow Hhigh]. split; [intros i Hi Hd; apply Hlow; lia | exact Hhigh]. Qed.

Lemma log2_u32 (x : Z) : 0 < x < 2 ^ 32 -> 0 <= Z.log2 x <= 31.
Proof.
  intros Hx. split; [apply Z.log2_nonneg|].
  assert (Z.log2 x < 32) by (apply Z.log2_lt_pow2; lia). lia.
Qed.

(** [leadingZeroCount] against the position of the top set bit. *)
Lemma leadingZeroCount_log2 (x : Z) :
  0 < x < 2 ^ 32 -> leadingZeroCount x = 31 - Z.log2 x.
Proof.
  intros Hx. pose proof (log2_u32 x Hx) as Hj.
  unfold leadingZeroCount.
  pose proof (run_below_start x (proj1 Hx)) as R0.
  pose proof (run_below_step (Z.log2 x) 1 1 _ ltac:(lia) ltac:(lia) R0) as R1.
  pose proof (run_below_step (Z.log2 x) 2 2 _ ltac:(lia) ltac:(lia) R1) as R2.
  pose proof (run_below_step (Z.log2 x) 4 4 _ ltac:(lia) ltac:(lia) R2) as R3.
  pose proof (run_below_step (Z.log2 x) 8 8 _ ltac:(lia) ltac:(lia) R3) as R4.
  pose proof (run_below_step (Z.log2 x) 16 16 _ ltac:(lia) ltac:(lia) R4) as R5.
  cbv zeta.
  apply (run_below_weaken _ _ (Z.log2 x + 1)) in R5; [|lia].
  apply run_below_full in R5; [|lia].
  rewrite R5.
  replace (Z.log2 x + 1) with (Z.of_nat (Z.to_nat (Z.log2 x + 1))) by lia.
  rewrite ones_low_block by lia.
  unfold U32.sub. rewrite wrap32_small by lia. lia.
Qed.

Lemma leadingZeroCount_0 : leadingZeroCount 0 = 32.
Proof. vm_compute. reflexivity. Qed.

(** The specification's count against the position of the top set bit. *)
Lemma leading_zero_bits_0 (w : nat) : leading_zero_bits w 0 = w.
Proof. induction w as [|w IH]; simpl; [reflexivity|]. rewrite Z.bits_0, IH. reflexivity. Qed.

Lemma leading_zero_bits_log2 (w : nat) (x : Z) :
  0 < x < 2 ^ Z.of_nat w ->
  Z.of_nat (leading_zero_bits w x) = Z.of_nat w - 1 - Z.log2 x.
Proof.
  induction w as [|w IH]; intros Hx.
  - simpl in Hx. lia.
  - simpl leading_zero_bits.
    destruct (Z.testbit x (Z.of_nat w)) eqn:Hb.
    + assert (Z.of_nat w <= Z.log2 x).
      { destruct (Z_le_dec (Z.of_nat w) (Z.log2 x)) as [Hle|Hgt]; [exact Hle|].
        rewrite Z.bits_above_log2 in Hb by lia. discriminate. }
      assert (Z.log2 x < Z.of_nat (S w)) by (apply Z.log2_lt_pow2; lia).
      lia.
    + assert (x < 2 ^ Z.of_nat w).
      { destruct (Z_lt_dec x (2 ^ Z.of_nat w)) as [Hlt|Hge]; [exact Hlt|].
        assert (Z.log2 x = Z.of_nat w) as Hl.
        { apply Z.log2_unique; [lia|]. rewrite Nat2Z.inj_succ in Hx. lia. }
        rewrite <- Hl, Z.bit_log2 in Hb by lia. discriminate. }
      rewrite Nat2Z.inj_succ, IH by lia. lia.
Qed.

(** [(hash << k) >> k] keeps the low [32 - k] bits. *)
Lemma shl_shr_low_bits (kk hash : Z) :
  0 <= kk <= 32 -> 0 <= hash < 2 ^ 32 ->
  U32.shr (U32.shl hash kk) kk = low_bits kk hash.
Proof.
  intros Hk Hh. unfold U32.shr, U32.shl, U32.wrap32, U32.modulus, low_bits.
  rewrite Z.shiftr_div_pow2, Z.shiftl_mul_pow2 by lia.
  assert (0 < 2 ^ kk) by (apply Z.pow_pos_nonneg; lia).
  assert (0 < 2 ^ (32 - kk)) by (apply Z.pow_pos_nonneg; lia).
  replace (2 ^ 32) with (2 ^ (32 - kk) * 2 ^ kk)
    by (rewrite <- Z.pow_add_r by lia; f_equal; lia).
  rewrite Z.mul_mod_distr_r by lia.
  apply Z.div_mul. lia.
Qed.

(** ** Hash mapping: rank and index *)

Lemma add_rank_log2 (self : HyperLogLog) (hash : Z) :
  2 <= k self <= 16 -> 0 <= hash < 2 ^ 32 -> 0 < low_bits (k self) hash ->
  add_rank self hash = 32 - k self - Z.log2 (low_bits (k self) hash).
Proof.
  intros Hk Hh Hpos. unfold add_rank.
  rewrite shl_shr_low_bits by lia.
  assert (low_bits (k self) hash < 2 ^ (32 - k self)) as Hlt
    by (apply Z.mod_pos_bound, Z.pow_pos_nonneg; lia).
  assert (2 ^ (32 - k self) <= 2 ^ 32) by (apply Z.pow_le_mono_r; lia).
  rewrite leadingZeroCount_log2 by lia.
  assert (Z.log2 (low_bits (k self) hash) < 32 - k self) by (apply Z.log2_lt_pow2; lia).
  pose proof (Z.log2_nonneg (low_bits (k self) hash)).
  unfold U32.add, U32.sub.
  rewrite (wrap32_small (31 - _ - _)) by lia.
  rewrite wrap32_small by lia. lia.
Qed.

Lemma add_rank_zero_remainder (self : HyperLogLog) (hash : Z) :
  2 <= k self <= 16 -> 0 <= hash < 2 ^ 32 -> low_bits (k self) hash = 0 ->
  add_rank self hash = 32 - k self + 1.
Proof.
  intros Hk Hh Hz. unfold add_rank.
  rewrite shl_shr_low_bits, Hz, leadingZeroCount_0 by lia.
  unfold U32.add, U32.sub.
  rewrite (wrap32_small (32 - _)) by lia.
  apply wrap32_small. lia.
Qed.

Lemma add_rank_bounds (self : HyperLogLog) (hash : Z) :
  2 <= k self <= 16 -> 0 <= hash < 2 ^ 32 -> 1 <= add_rank self hash <= 32 - k self + 1.
Proof.
  intros Hk Hh.
  assert (0 <= low_bits (k self) hash < 2 ^ (32 - k self)) as Hr
    by (apply Z.mod_pos_bound, Z.pow_pos_nonneg; lia).
  destruct (Z.eq_dec (low_bits (k self) hash) 0) as [Hz|Hnz].
  - rewrite add_rank_zero_remainder by assumption. lia.
  - rewrite add_rank_log2 by lia.
    assert (Z.log2 (low_bits (k self) hash) < 32 - k self) by (apply Z.log2_lt_pow2; lia).
    pose proof (Z.log2_nonneg (low_bits (k self) hash)). lia.
Qed.

(** C8: for a 32-bit hash, the rank that add derives is the number of leading
    zero bits of the (32 - k)-bit low-order remainder of the hash, plus 1; when
    the remainder is zero the rank is (32 - k) + 1. *)
Theorem add_rank_leading_zero_bits (self : HyperLogLog) (hash : Z) :
  2 <= k self <= 16 -> 0 <= hash < 2 ^ 32 ->
  add_rank self hash
  = Z.of_nat (leading_zero_bits (Z.to_nat (32 - k self)) (low_bits (k self) hash)) + 1
  /\ (low_bits (k self) hash = 0 -> add_rank self hash = 32 - k self + 1).
Proof.
  intros Hk Hh. split; [|apply add_rank_zero_remainder; assumption].
  assert (0 <= low_bits (k self) hash < 2 ^ (32 - k self)) as Hr
    by (apply Z.mod_pos_bound, Z.pow_pos_nonneg; lia).
  destruct (Z.eq_dec (low_bits (k self) hash) 0) as [Hz|Hnz].
  - rewrite add_rank_zero_remainder, Hz, leading_zero_bits_0 by assumption. lia.
  - rewrite add_rank_log2, leading_zero_bits_log2 by (rewrite ?Z2Nat.id; lia). lia.
Qed.

(** The index that add computes is one more than the top [k] bits. *)
Lemma add_index_top_bits (self : HyperLogLog) (hash : Z) :
  2 <= k self <= 16 -> 0 <= hash < 2 ^ 32 ->
  0 <= top_bits (k self) hash < 2 ^ k self /\
  add_index self hash = top_bits (k self) hash + 1.
Proof.
  intros Hk Hh. unfold add_index, top_bits, U32.add, U32.shr.
  rewrite Z.shiftr_div_pow2 by lia.
  assert (0 < 2 ^ (32 - k self)) by (apply Z.pow_pos_nonneg; lia).
  assert (2 ^ 32 = 2 ^ k self * 2 ^ (32 - k self)) as Hsplit
    by (rewrite <- Z.pow_add_r by lia; f_equal; lia).
  assert (0 <= hash / 2 ^ (32 - k self) < 2 ^ k self) as Hq.
  { split; [apply Z.div_pos; lia|]. apply Z.div_lt_upper_bound; lia. }
  assert (2 ^ k self <= 2 ^ 16) by (apply Z.pow_le_mono_r; lia).
  split; [exact Hq|]. apply wrap32_small. lia.
Qed.

(** ** Construction *)

Lemma shiftl_1_u32 (kk : Z) : 0 <= kk <= 16 -> U32.wrap32 (Z.shiftl 1 kk) = 2 ^ kk.
Proof.
  intros Hk. rewrite Z.shiftl_mul_pow2, Z.mul_1_l by lia.
  assert (0 < 2 ^ kk) by (apply Z.pow_pos_nonneg; lia).
  assert (2 ^ kk <= 2 ^ 16) by (apply Z.pow_le_mono_r; lia).
  apply wrap32_small. lia.
Qed.

Lemma to_short_small (kk : Z) : -32768 <= kk <= 32767 -> to_short kk = kk.
Proof. intros Hk. unfold to_short. rewrite Z.mod_small by lia. lia. Qed.

(** Construction looks at the low 16 bits of the parsed [k] only. *)
Lemma construct_accepts (kk : Z) (seed_arg : option Z) :
  2 <= to_short kk <= 16 ->
  construct kk seed_arg = Returns (fresh_estimator (to_short kk) (default 314 seed_arg)) tt.
Proof.
  intros Hk. unfold construct, HyperLogLog_init, HyperLogLog_new, fresh_estimator.
  cbn [k seed size registers].
  replace (to_short kk <? 2) with false by lia.
  replace (to_short kk >? 16) with false by lia. cbn [orb].
  rewrite shiftl_1_u32 by lia. reflexivity.
Qed.

Lemma construct_in_range (kk : Z) (seed_arg : option Z) :
  2 <= kk <= 16 ->
  construct kk seed_arg = Returns (fresh_estimator kk (default 314 seed_arg)) tt.
Proof.
  intros Hk. rewrite construct_accepts by (rewrite to_short_small; lia).
  rewrite to_short_small by lia. reflexivity.
Qed.

Lemma construct_out_of_range (kk : Z) (seed_arg : option Z) :
  to_short kk < 2 \/ 16 < to_short kk ->
  construct kk seed_arg
  = Raises (mkHyperLogLog (to_short kk) (default 314 seed_arg) 0 None)
      (ValueError "Number of registers must be in the range [2^2, 2^16]").
Proof.
  intros Hk. unfold construct, HyperLogLog_init, HyperLogLog_new.
  cbn [k seed size registers].
  destruct (Z.ltb_spec (to_short kk) 2); [reflexivity|].
  replace (to_short kk >? 16) with true by lia. reflexivity.
Qed.

Lemma fresh_estimator_valid (kk sd : Z) : 2 <= kk <= 16 -> valid (fresh_estimator kk sd) = true.
Proof.
  intros Hk. unfold valid, fresh_estimator. simpl.
  assert (0 < 2 ^ kk) by (apply Z.pow_pos_nonneg; lia).
  rewrite length_replicate, Z2Nat.id by lia.
  replace (2 <=? kk) with true by lia. replace (kk <=? 16) with true by lia.
  rewrite Z.eqb_refl. simpl.
  apply forallb_forall. intros r Hr. apply list_elem_of_In, elem_of_replicate in Hr.
  destruct Hr as [-> _]. reflexivity.
Qed.

(** C7, at the failing input: constructing with k = 65538, which is above
    16, raises nothing.  The int is stored into the short field k, which keeps
    2, and the constructor returns an estimator of 4 zeroed registers.  With
    k = 17 and k = 1 it raises ValueError. *)
Theorem construct_accepts_65538 :
  construct 65538 None = Returns (fresh_estimator 2 314) tt /\
  size (fresh_estimator 2 314) = 4 /\
  registers (fresh_estimator 2 314) = Some [0; 0; 0; 0] /\
  construct 17 None
  = Raises (mkHyperLogLog 17 314 0 None)
      (ValueError "Number of registers must be in the range [2^2, 2^16]") /\
  construct 1 None
  = Raises (mkHyperLogLog 1 314 0 None)
      (ValueError "Number of registers must be in the range [2^2, 2^16]").
Proof. repeat apply conj; vm_compute; reflexivity. Qed.

(** X19: construction decides on the low 16 bits of the parsed k, read as a
    signed short, which is k itself for every k in [-32768, 32767].  It
    raises ValueError exactly when that value is below 2 or above 16;
    otherwise it succeeds with that value as k, size = 2^k and 2^k zeroed
    registers, a valid estimator. *)
Theorem construct_low_16_bits (kk : Z) (seed_arg : option Z) :
  (to_short kk < 2 \/ 16 < to_short kk <->
   exists st msg, construct kk seed_arg = Raises st (ValueError msg)) /\
  (2 <= to_short kk <= 16 <-> exists self, construct kk seed_arg = Returns self tt) /\
  (forall self, construct kk seed_arg = Returns self tt ->
     k self = to_short kk /\ size self = 2 ^ to_short kk /\
     registers self = Some (replicate (Z.to_nat (2 ^ to_short kk)) 0) /\
     HyperLogLog_registers self = Some (replicate (Z.to_nat (2 ^ to_short kk)) 0) /\
     valid self = true) /\
  (-32768 <= kk <= 32767 -> to_short kk = kk).
Proof.
  split; [|split; [|split; [|apply to_short_small]]];
    (destruct (Z_lt_dec (to_short kk) 2) as [Hlo|Hlo];
     [|destruct (Z_lt_dec 16 (to_short kk)) as [Hhi|Hhi]];
     [rewrite construct_out_of_range by lia
     |rewrite construct_out_of_range by lia
     |rewrite construct_accepts by lia]).
  1,2: split; [intros _; eauto | intros _; lia].
  - split; [intros ?; lia | intros (st & msg & Hs); discriminate].
  - split; [intros ?; lia | intros [self Hs]; discriminate].
  - split; [intros ?; lia | intros [self Hs]; discriminate].
  - split; [intros _; eauto | intros _; lia].
  - intros self Hs; discriminate.
  - intros self Hs; discriminate.
  - intros self Hs. injection Hs as <-.
    assert (0 < 2 ^ to_short kk) by (apply Z.pow_pos_nonneg; lia).
    repeat split; try reflexivity.
    + unfold HyperLogLog_registers, fresh_estimator. simpl.
      rewrite length_replicate, Z2Nat.id by lia.
      replace (2 ^ to_short kk <=? 2 ^ to_short kk) with true by lia.
      rewrite take_replicate. f_equal. f_equal. lia.
    + apply fresh_estimator_valid. lia.
Qed.

(** ** Direct register writes *)

Lemma to_char_small (c : Z) : char_range c -> to_char c = c.
Proof.
  unfold char_range, to_char. intros Hc.
  rewrite Z.mod_small by lia. lia.
Qed.

Lemma valid_inv (self : HyperLogLog) :
  valid self = true ->
  2 <= k self <= 16 /\ size self = 2 ^ k self /\
  exists buf, registers self = Some buf /\ Z.of_nat (length buf) = size self /\
              Forall (fun r => 0 <= r <= 32) buf.
Proof.
  unfold valid. intros Hv.
  destruct (registers self) as [buf|]; [|rewrite andb_false_r in Hv; discriminate].
  apply andb_prop in Hv as [Hv Hbuf]. apply andb_prop in Hbuf as [Hlen Hall].
  apply andb_prop in Hv as [Hv Hsz]. apply andb_prop in Hv as [Hlo Hhi].
  repeat split; try lia.
  exists buf. repeat split; try lia.
  apply Forall_forall. intros r Hr.
  rewrite forallb_forall in Hall. apply list_elem_of_In, Hall in Hr.
  unfold rank_ok in Hr. lia.
Qed.

Lemma valid_size_bounds (self : HyperLogLog) : valid self = true -> 4 <= size self <= 65536.
Proof.
  intros Hv. destruct (valid_inv self Hv) as (Hk & -> & _).
  split.
  - change 4 with (2 ^ 2). apply Z.pow_le_mono_r; lia.
  - change 65536 with (2 ^ 16). apply Z.pow_le_mono_r; lia.
Qed.

Lemma store_in_bounds (self : HyperLogLog) (buf : list Z) (i v : Z) :
  registers self = Some buf -> 0 <= i < Z.of_nat (length buf) ->
  store self i v = Some (set_registers self (<[Z.to_nat i := to_char v]> buf)).
Proof.
  intros Hb Hi. unfold store. rewrite Hb.
  replace (0 <=? i) with true by lia. replace (i <? Z.of_nat (length buf)) with true by lia.
  reflexivity.
Qed.

Lemma store_out_of_bounds (self : HyperLogLog) (buf : list Z) (i v : Z) :
  registers self = Some buf -> Z.of_nat (length buf) <= i -> store self i v = None.
Proof.
  intros Hb Hi. unfold store. rewrite Hb.
  replace (i <? Z.of_nat (length buf)) with false by lia.
  rewrite andb_false_r. reflexivity.
Qed.

Lemma load_in_bounds (self : HyperLogLog) (buf : list Z) (i : Z) :
  registers self = Some buf -> 0 <= i < Z.of_nat (length buf) ->
  load self i = buf !! Z.to_nat i.
Proof.
  intros Hb Hi. unfold load. rewrite Hb.
  replace (0 <=? i) with true by lia. replace (i <? Z.of_nat (length buf)) with true by lia.
  reflexivity.
Qed.

Lemma load_out_of_bounds (self : HyperLogLog) (buf : list Z) (i : Z) :
  registers self = Some buf -> Z.of_nat (length buf) <= i -> load self i = None.
Proof.
  intros Hb Hi. unfold load. rewrite Hb.
  replace (i <? Z.of_nat (length buf)) with false by lia.
  rewrite andb_false_r. reflexivity.
Qed.

(** An index above [size] is refused with IndexError, the state untouched. *)
Lemma set_register_index_above_size (self : HyperLogLog) (index rank : Z) :
  0 <= index -> size self < index ->
  HyperLogLog_set_register self index rank
  = Raises self (IndexError "Index greater than the number of registers.").
Proof.
  intros H0 Hi. unfold HyperLogLog_set_register.
  replace (index <? 0) with false by lia. replace (index >? size self) with true by lia.
  reflexivity.
Qed.

(** A rank above 32 is refused with ValueError once the index test has passed. *)
Lemma set_register_rank_above_32 (self : HyperLogLog) (index rank : Z) :
  0 <= index <= size self -> 32 < rank ->
  HyperLogLog_set_register self index rank
  = Raises self (ValueError "Rank is greater than the maximum possible rank.").
Proof.
  intros Hi Hr. unfold HyperLogLog_set_register.
  replace (index <? 0) with false by lia. replace (index >? size self) with false by lia.
  replace (rank >? 32) with true by lia. reflexivity.
Qed.

(** With an index below [size] and a rank of at most 32, the cell at the
    index holds the rank afterwards, and only that cell has changed. *)
Lemma set_register_in_range (self : HyperLogLog) (index rank : Z) :
  valid self = true -> 0 <= index < size self -> 0 <= rank <= 32 ->
  exists buf,
    registers self = Some buf /\
    HyperLogLog_set_register self index rank
    = Returns (set_registers self (<[Z.to_nat index := rank]> buf)) tt /\
    HyperLogLog_registers (set_registers self (<[Z.to_nat index := rank]> buf))
    = Some (<[Z.to_nat index := rank]> buf) /\
    <[Z.to_nat index := rank]> buf !! Z.to_nat index = Some rank /\
    (forall j : nat, j <> Z.to_nat index -> <[Z.to_nat index := rank]> buf !! j = buf !! j) /\
    valid (set_registers self (<[Z.to_nat index := rank]> buf)) = true.
Proof.
  intros Hv Hi Hr. destruct (valid_inv self Hv) as (Hk & Hsz & buf & Hb & Hlen & Hall).
  exists buf. split; [exact Hb|].
  unfold HyperLogLog_set_register.
  replace (index <? 0) with false by lia. replace (index >? size self) with false by lia.
  replace (rank >? 32) with false by lia. replace (rank <? 0) with false by lia.
  rewrite (store_in_bounds self buf) by (try assumption; lia).
  rewrite to_char_small by (unfold char_range; lia).
  split; [reflexivity|]. split; [|split; [|split]].
  - unfold HyperLogLog_registers, set_registers. simpl.
    rewrite length_insert.
    replace (size self <=? Z.of_nat (length buf)) with true by lia.
    rewrite take_ge; [reflexivity|]. rewrite length_insert. lia.
  - apply list_lookup_insert_eq. lia.
  - intros j Hj. apply list_lookup_insert_ne. congruence.
  - unfold valid, set_registers. simpl. rewrite length_insert.
    replace (2 <=? k self) with true by lia. replace (k self <=? 16) with true by lia.
    replace (size self =? 2 ^ k self) with true by lia.
    replace (Z.of_nat (length buf) =? size self) with true by lia. simpl.
    apply forallb_forall. intros r Hin. apply list_elem_of_In in Hin.
    apply list_elem_of_lookup in Hin as [j Hj].
    destruct (decide (j = Z.to_nat index)) as [->|Hne].
    + rewrite list_lookup_insert_eq in Hj by lia. injection Hj as <-. unfold rank_ok. lia.
    + rewrite list_lookup_insert_ne in Hj by congruence.
      rewrite Forall_forall in Hall.
      assert (0 <= r <= 32) by (apply Hall; eapply list_elem_of_lookup_2; eassumption).
      unfold rank_ok. lia.
Qed.

(** The index [size] itself passes the test [index > self->size] and the
    write lands one cell past the buffer. *)
Lemma set_register_at_size_undefined (self : HyperLogLog) (rank : Z) :
  valid self = true -> 0 <= rank <= 32 ->
  HyperLogLog_set_register self (size self) rank = Undefined.
Proof.
  intros Hv Hr. destruct (valid_inv self Hv) as (Hk & Hsz & buf & Hb & Hlen & Hall).
  pose proof (valid_size_bounds self Hv).
  unfold HyperLogLog_set_register.
  replace (size self <? 0) with false by lia.
  replace (size self >? size self) with false by lia.
  replace (rank >? 32) with false by lia. replace (rank <? 0) with false by lia.
  rewrite (store_out_of_bounds self buf) by (try assumption; lia).
  reflexivity.
Qed.

(** C5, at the failing input: on a fresh estimator with k = 2 (size 4),
    set_register(4, 1) raises no IndexError; it writes outside the buffer. *)
Theorem set_register_index_size_no_error :
  size (fresh_estimator 2 314) = 4 /\
  HyperLogLog_set_register (fresh_estimator 2 314) 4 1 = Undefined /\
  HyperLogLog_set_register (fresh_estimator 2 314) 5 1
  = Raises (fresh_estimator 2 314) (IndexError "Index greater than the number of registers.").
Proof. repeat apply conj; vm_compute; reflexivity. Qed.

(** C10: in set_register the tests [index < 0] and [rank < 0] are false for
    every pair of unsigned 32-bit arguments, so the "Index is negative." and
    "Rank is negative." errors are never raised. *)
Theorem set_register_negative_branches_dead (self : HyperLogLog) (index rank : Z) :
  U32.in_range index -> U32.in_range rank ->
  (index <? 0) = false /\ (rank <? 0) = false /\
  forall st,
    HyperLogLog_set_register self index rank <> Raises st (ValueError "Index is negative.") /\
    HyperLogLog_set_register self index rank <> Raises st (ValueError "Rank is negative.").
Proof.
  unfold U32.in_range. intros Hi Hr.
  split; [lia|]. split; [lia|]. intros st.
  unfold HyperLogLog_set_register.
  replace (index <? 0) with false by lia. replace (rank <? 0) with false by lia.
  destruct (index >? size self); [split; discriminate|].
  destruct (rank >? 32); [split; discriminate|].
  destruct (store self index rank); split; discriminate.
Qed.

Lemma set_register_negative_branches_dead_witness :
  (0 <? 0) = false /\ (33 <? 0) = false /\
  forall st,
    HyperLogLog_set_register (fresh_estimator 2 314) 0 33
      <> Raises st (ValueError "Index is negative.") /\
    HyperLogLog_set_register (fresh_estimator 2 314) 0 33
      <> Raises st (ValueError "Rank is negative.").
Proof.
  apply (set_register_negative_branches_dead (fresh_estimator 2 314) 0 33);
    unfold U32.in_range, U32.modulus; lia.
Defined.

(** ** Insertion *)

Lemma set_registers_same (self : HyperLogLog) (buf : list Z) :
  registers self = Some buf -> set_registers self buf = self.
Proof. destruct self as [kk sd sz regs]. simpl. intros ->. reflexivity. Qed.

Lemma char_to_u32_rank (c : Z) : 0 <= c <= 32 -> char_to_u32 c = c.
Proof. intros Hc. apply wrap32_small. lia. Qed.

(** When the computed index is inside the buffer, add is the monotone-max
    write at that index. *)
Lemma add_hash_in_bounds (self : HyperLogLog) (hash : Z) (buf : list Z) :
  valid self = true -> 0 <= hash < 2 ^ 32 -> registers self = Some buf ->
  add_index self hash < size self ->
  exists cell,
    buf !! Z.to_nat (add_index self hash) = Some cell /\
    add_hash self hash
    = Returns (set_registers self
                 (<[Z.to_nat (add_index self hash) := Z.max cell (add_rank self hash)]> buf)) tt.
Proof.
  intros Hv Hh Hb Hidx.
  destruct (valid_inv self Hv) as (Hk & Hsz & buf' & Hb' & Hlen & Hall).
  rewrite Hb in Hb'. injection Hb' as <-.
  destruct (add_index_top_bits self hash Hk Hh) as [Htop Hi].
  pose proof (add_rank_bounds self hash Hk Hh) as Hrank.
  destruct (lookup_lt_is_Some_2 buf (Z.to_nat (add_index self hash))) as [cell Hcell]; [lia|].
  exists cell. split; [exact Hcell|].
  assert (0 <= cell <= 32) as Hc.
  { rewrite Forall_forall in Hall. apply Hall. eapply list_elem_of_lookup_2. exact Hcell. }
  unfold add_hash.
  rewrite (load_in_bounds self buf), Hcell by (try assumption; lia).
  rewrite char_to_u32_rank by exact Hc.
  destruct (Z.gtb_spec (add_rank self hash) cell) as [Hgt|Hle].
  - rewrite (store_in_bounds self buf) by (try assumption; lia).
    rewrite to_char_small by (unfold char_range; lia).
    rewrite Z.max_r by lia. reflexivity.
  - rewrite Z.max_l by lia. rewrite list_insert_id by exact Hcell.
    rewrite set_registers_same by exact Hb. reflexivity.
Qed.

(** When the top [k] bits of the hash are all ones the computed index is
    [size], one past the last cell. *)
Lemma add_hash_past_the_end (self : HyperLogLog) (hash : Z) :
  valid self = true -> 0 <= hash < 2 ^ 32 ->
  size self <= add_index self hash -> add_hash self hash = Undefined.
Proof.
  intros Hv Hh Hidx.
  destruct (valid_inv self Hv) as (Hk & Hsz & buf & Hb & Hlen & Hall).
  unfold add_hash. rewrite (load_out_of_bounds self buf) by (try assumption; lia).
  reflexivity.
Qed.

Lemma add_hash_valid (self self' : HyperLogLog) (hash : Z) :
  valid self = true -> 0 <= hash < 2 ^ 32 ->
  add_hash self hash = Returns self' tt ->
  valid self' = true /\ k self' = k self /\ seed self' = seed self /\ size self' = size self.
Proof.
  intros Hv Hh Hadd.
  destruct (valid_inv self Hv) as (Hk & Hsz & buf & Hb & Hlen & Hall).
  destruct (Z_lt_dec (add_index self hash) (size self)) as [Hin|Hout].
  - destruct (add_hash_in_bounds self hash buf Hv Hh Hb Hin) as (cell & Hcell & Heq).
    rewrite Heq in Hadd. injection Hadd as <-.
    split; [|repeat split].
    pose proof (add_rank_bounds self hash Hk Hh) as Hrank.
    assert (0 <= cell <= 32) as Hc.
    { rewrite Forall_forall in Hall. apply Hall. eapply list_elem_of_lookup_2. exact Hcell. }
    unfold valid, set_registers. simpl. rewrite length_insert.
    replace (2 <=? k self) with true by lia. replace (k self <=? 16) with true by lia.
    replace (size self =? 2 ^ k self) with true by lia.
    replace (Z.of_nat (length buf) =? size self) with true by lia. simpl.
    apply forallb_forall. intros r Hin'. apply list_elem_of_In in Hin'.
    apply list_elem_of_lookup in Hin' as [j Hj].
    destruct (decide (j = Z.to_nat (add_index self hash))) as [->|Hne].
    + rewrite list_lookup_insert_eq in Hj by (eapply lookup_lt_Some; exact Hcell).
      injection Hj as <-. unfold rank_ok. lia.
    + rewrite list_lookup_insert_ne in Hj by congruence.
      rewrite Forall_forall in Hall.
      assert (0 <= r <= 32) by (apply Hall; eapply list_elem_of_lookup_2; eassumption).
      unfold rank_ok. lia.
  - rewrite add_hash_past_the_end in Hadd by (try assumption; lia). discriminate.
Qed.

(** A second insertion of the same hash changes nothing. *)
Lemma add_hash_twice (self self' : HyperLogLog) (hash : Z) :
  valid self = true -> 0 <= hash < 2 ^ 32 ->
  add_hash self hash = Returns self' tt -> add_hash self' hash = Returns self' tt.
Proof.
  intros Hv Hh Hadd.
  destruct (add_hash_valid self self' hash Hv Hh Hadd) as (Hv' & Hk' & _ & Hsz').
  destruct (valid_inv self Hv) as (Hk & Hsz & buf & Hb & Hlen & Hall).
  destruct (Z_lt_dec (add_index self hash) (size self)) as [Hin|Hout].
  - destruct (add_hash_in_bounds self hash buf Hv Hh Hb Hin) as (cell & Hcell & Heq).
    rewrite Heq in Hadd. injection Hadd as Hself'.
    assert (add_index self' hash = add_index self hash) as Hi'
      by (unfold add_index; rewrite Hk'; reflexivity).
    assert (add_rank self' hash = add_rank self hash) as Hr'
      by (unfold add_rank; rewrite Hk'; reflexivity).
    assert (registers self'
            = Some (<[Z.to_nat (add_index self hash) := Z.max cell (add_rank self hash)]> buf))
      as Hb' by (rewrite <- Hself'; reflexivity).
    destruct (add_hash_in_bounds self' hash _ Hv' Hh Hb') as (cell' & Hcell' & Heq');
      [rewrite Hi', Hsz'; exact Hin|].
    rewrite Heq', Hi', Hr'. rewrite Hi' in Hcell'.
    rewrite list_lookup_insert_eq in Hcell' by (eapply lookup_lt_Some; exact Hcell).
    injection Hcell' as <-.
    rewrite list_insert_insert_eq.
    replace (Z.max (Z.max cell (add_rank self hash)) (add_rank self hash))
      with (Z.max cell (add_rank self hash)) by lia.
    rewrite set_registers_same by exact Hb'. reflexivity.
  - rewrite add_hash_past_the_end in Hadd by (try assumption; lia). discriminate.
Qed.

Lemma add_repeatedly_fixed (hashfn : list Byte.byte -> Z -> Z)
    (n : nat) (self : HyperLogLog) (data : list Byte.byte) :
  HyperLogLog_add hashfn self data = Returns self tt ->
  add_repeatedly hashfn n self data = Returns self tt.
Proof.
  intros Hfix. induction n as [|n IH]; simpl; [reflexivity|].
  rewrite Hfix. exact IH.
Qed.

Lemma add_rank_as_leading_zeros (self : HyperLogLog) (hash : Z) :
  2 <= k self <= 16 -> 0 <= hash < 2 ^ 32 ->
  add_rank self hash
  = Z.of_nat (leading_zero_bits (Z.to_nat (32 - k self)) (low_bits (k self) hash)) + 1.
Proof.
  intros Hk Hh.
  assert (0 <= low_bits (k self) hash < 2 ^ (32 - k self)) as Hr
    by (apply Z.mod_pos_bound, Z.pow_pos_nonneg; lia).
  destruct (Z.eq_dec (low_bits (k self) hash) 0) as [Hz|Hnz].
  - rewrite add_rank_zero_remainder, Hz, leading_zero_bits_0 by assumption. lia.
  - rewrite add_rank_log2, leading_zero_bits_log2 by (rewrite ?Z2Nat.id; lia). lia.
Qed.

(** X22: what repeated insertion does, in the specification's terms.  On a
    valid estimator, for a byte string whose 32-bit hash has top k bits t and
    whose low 32 - k bits have z leading zeros: when t is not all ones, one
    add returns with register t + 1 set to max(its old value, z + 1) and all
    other registers unchanged, and N >= 1 adds of the same bytes return that
    same state; when t is all ones, one add and N adds alike read the cell
    one past the buffer. *)
Theorem add_repeatedly_exact (hashfn : list Byte.byte -> Z -> Z)
    (self : HyperLogLog) (data : list Byte.byte) (N : nat) :
  valid self = true -> U32.in_range (hashfn data (seed self)) -> (1 <= N)%nat ->
  (top_bits (k self) (hashfn data (seed self)) < 2 ^ k self - 1 ->
   exists buf cell,
     registers self = Some buf /\
     buf !! Z.to_nat (top_bits (k self) (hashfn data (seed self)) + 1) = Some cell /\
     HyperLogLog_add hashfn self data
     = Returns
         (set_registers self
            (<[Z.to_nat (top_bits (k self) (hashfn data (seed self)) + 1)
               := Z.max cell
                    (Z.of_nat (leading_zero_bits (Z.to_nat (32 - k self))
                                 (low_bits (k self) (hashfn data (seed self)))) + 1)]> buf))
         tt /\
     add_repeatedly hashfn N self data = HyperLogLog_add hashfn self data) /\
  (top_bits (k self) (hashfn data (seed self)) = 2 ^ k self - 1 ->
   HyperLogLog_add hashfn self data = Undefined /\
   add_repeatedly hashfn N self data = Undefined).
Proof.
  unfold U32.in_range, U32.modulus. intros Hv Hh HN.
  destruct (valid_inv self Hv) as (Hk & Hsz & buf & Hb & Hlen & Hall).
  destruct (add_index_top_bits self _ Hk Hh) as [Htop Hidx].
  split.
  - intros Hlt. unfold HyperLogLog_add.
    destruct (add_hash_in_bounds self _ buf Hv Hh Hb ltac:(lia)) as (cell & Hcell & Heq).
    rewrite Hidx in Hcell, Heq. rewrite add_rank_as_leading_zeros in Heq by assumption.
    exists buf, cell. split; [exact Hb|]. split; [exact Hcell|]. split; [exact Heq|].
    destruct N as [|n]; [lia|]. cbn [add_repeatedly]. unfold HyperLogLog_add.
    rewrite Heq. apply add_repeatedly_fixed. unfold HyperLogLog_add.
    change (seed (set_registers self ?b)) with (seed self).
    eapply add_hash_twice; [exact Hv | exact Hh | exact Heq].
  - intros Hones. unfold HyperLogLog_add.
    assert (add_hash self (hashfn data (seed self)) = Undefined) as Hundef
      by (apply add_hash_past_the_end; try assumption; lia).
    split; [exact Hundef|].
    destruct N as [|n]; [lia|]. cbn [add_repeatedly]. unfold HyperLogLog_add.
    rewrite Hundef. reflexivity.
Qed.

Lemma add_repeatedly_exact_witness :
  exists buf cell,
    registers (fresh_estimator 2 314) = Some buf /\
    buf !! Z.to_nat (top_bits 2 (Murmur3.MurmurHash3_x86_32 (bytes_of "") 314) + 1)
    = Some cell /\
    HyperLogLog_add Murmur3.MurmurHash3_x86_32 (fresh_estimator 2 314) (bytes_of "")
    = Returns
        (set_registers (fresh_estimator 2 314)
           (<[Z.to_nat (top_bits 2 (Murmur3.MurmurHash3_x86_32 (bytes_of "") 314) + 1)
              := Z.max cell
                   (Z.of_nat (leading_zero_bits (Z.to_nat (32 - 2))
                                (low_bits 2 (Murmur3.MurmurHash3_x86_32 (bytes_of "") 314)))
                    + 1)]> buf))
        tt /\
    add_repeatedly Murmur3.MurmurHash3_x86_32 3 (fresh_estimator 2 314) (bytes_of "")
    = HyperLogLog_add Murmur3.MurmurHash3_x86_32 (fresh_estimator 2 314) (bytes_of "").
Proof.
  refine (proj1 (add_repeatedly_exact Murmur3.MurmurHash3_x86_32 (fresh_estimator 2 314)
                   (bytes_of "") 3 _ _ _) _).
  - reflexivity.
  - vm_compute. split; [discriminate | reflexivity].
  - lia.
  - vm_compute. reflexivity.
Defined.

(** C6, at the failing inputs: on a fresh estimator with k = 2 and the
    default seed, the byte string "a" has a hash whose top two bits are 3 and
    whose rank is 3: one add, and three adds, address register 4 of a
    four-cell buffer, so no register array results, where the claim has
    register 3 hold 3.  The empty byte string has top bits 1 and rank 2: three
    adds leave the same array as one, but with the rank in register 2, not in
    register 1. *)
Theorem add_repeatedly_at_failing_inputs :
  top_bits 2 (Murmur3.MurmurHash3_x86_32 (bytes_of "a") 314) = 3 /\
  add_rank (fresh_estimator 2 314) (Murmur3.MurmurHash3_x86_32 (bytes_of "a") 314) = 3 /\
  HyperLogLog_add Murmur3.MurmurHash3_x86_32 (fresh_estimator 2 314) (bytes_of "a")
  = Undefined /\
  add_repeatedly Murmur3.MurmurHash3_x86_32 3 (fresh_estimator 2 314) (bytes_of "a")
  = Undefined /\
  top_bits 2 (Murmur3.MurmurHash3_x86_32 (bytes_of "") 314) = 1 /\
  add_rank (fresh_estimator 2 314) (Murmur3.MurmurHash3_x86_32 (bytes_of "") 314) = 2 /\
  add_repeatedly Murmur3.MurmurHash3_x86_32 1 (fresh_estimator 2 314) (bytes_of "")
  = Returns (set_registers (fresh_estimator 2 314) [0; 0; 2; 0]) tt /\
  add_repeatedly Murmur3.MurmurHash3_x86_32 3 (fresh_estimator 2 314) (bytes_of "")
  = Returns (set_registers (fresh_estimator 2 314) [0; 0; 2; 0]) tt.
Proof. repeat apply conj; vm_compute; reflexivity. Qed.

(** C1, at failing inputs: on a fresh estimator with k = 2 and the default
    seed, the empty byte string has a hash whose top two bits are 1, and add
    writes register 2, leaving register 1 at 0; the byte string "a" has a hash
    whose top two bits are 3, and add addresses register 4, outside the
    four-cell buffer. *)
Theorem add_index_off_by_one :
  top_bits 2 (Murmur3.MurmurHash3_x86_32 (bytes_of "") 314) = 1 /\
  add_index (fresh_estimator 2 314) (Murmur3.MurmurHash3_x86_32 (bytes_of "") 314) = 2 /\
  HyperLogLog_add Murmur3.MurmurHash3_x86_32 (fresh_estimator 2 314) (bytes_of "")
  = Returns (set_registers (fresh_estimator 2 314) [0; 0; 2; 0]) tt /\
  top_bits 2 (Murmur3.MurmurHash3_x86_32 (bytes_of "a") 314) = 3 /\
  add_index (fresh_estimator 2 314) (Murmur3.MurmurHash3_x86_32 (bytes_of "a") 314) = 4 /\
  HyperLogLog_add Murmur3.MurmurHash3_x86_32 (fresh_estimator 2 314) (bytes_of "a")
  = Undefined.
Proof. repeat apply conj; vm_compute; reflexivity. Qed.

Lemma add_rank_leading_zero_bits_witness :
  add_rank (fresh_estimator 4 314) 0x00000400
  = Z.of_nat (leading_zero_bits (Z.to_nat (32 - 4)) (low_bits 4 0x00000400)) + 1
  /\ (low_bits 4 0x00000400 = 0 -> add_rank (fresh_estimator 4 314) 0x00000400 = 32 - 4 + 1).
Proof.
  apply (add_rank_leading_zero_bits (fresh_estimator 4 314) 0x00000400); simpl; lia.
Defined.

(** ** Merge *)

Lemma registers_max_lookup (a b : list Z) (i : nat) (x y : Z) :
  a !! i = Some x -> b !! i = Some y -> registers_max a b !! i = Some (Z.max x y).
Proof. intros Ha Hb. unfold registers_max. rewrite lookup_zip_with, Ha, Hb. reflexivity. Qed.

Lemma registers_max_length (a b : list Z) :
  length a = length b -> length (registers_max a b) = length a.
Proof. intros Hl. unfold registers_max. rewrite length_zip_with. lia. Qed.

Lemma registers_max_comm (a b : list Z) : registers_max a b = registers_max b a.
Proof.
  unfold registers_max. revert b.
  induction a as [|x a IH]; intros [|y b]; simpl; try reflexivity.
  rewrite IH, Z.max_comm. reflexivity.
Qed.

Lemma registers_max_absorb (a b : list Z) :
  registers_max (registers_max a b) b = registers_max a b.
Proof.
  unfold registers_max. revert b.
  induction a as [|x a IH]; intros [|y b]; simpl; try reflexivity.
  rewrite IH. f_equal. lia.
Qed.

Lemma registers_max_self (a : list Z) : registers_max a a = a.
Proof.
  unfold registers_max. induction a as [|x a IH]; simpl; [reflexivity|].
  rewrite IH, Z.max_id. reflexivity.
Qed.

Lemma registers_max_ranks (a b : list Z) :
  Forall (fun r => 0 <= r <= 32) a -> Forall (fun r => 0 <= r <= 32) b ->
  Forall (fun r => 0 <= r <= 32) (registers_max a b).
Proof.
  unfold registers_max. intros Ha. revert b.
  induction Ha as [|x a Hx Ha IH]; intros b Hb; destruct Hb as [|y b Hy Hb]; simpl;
    try constructor; [lia | apply IH; exact Hb].
Qed.

(** One iteration of the merge loop is a max write at cell [i]. *)
Lemma merge_step_max (hllRegisters : list Z) (i : nat) (self : HyperLogLog)
    (buf : list Z) (mine theirs : Z) :
  registers self = Some buf -> buf !! i = Some mine -> hllRegisters !! i = Some theirs ->
  char_range theirs ->
  merge_step hllRegisters (Z.of_nat i) self
  = Some (set_registers self (<[i := Z.max mine theirs]> buf)).
Proof.
  intros Hb Hmine Htheirs Hc.
  pose proof (lookup_lt_Some _ _ _ Hmine) as Hlt.
  unfold merge_step.
  rewrite (load_in_bounds self buf), Nat2Z.id, Hmine, Htheirs by (try assumption; lia).
  destruct (Z.ltb_spec mine theirs) as [Hlt'|Hge].
  - rewrite (store_in_bounds self buf), Nat2Z.id by (try assumption; lia).
    rewrite to_char_small, Z.max_r by (try assumption; lia). reflexivity.
  - rewrite Z.max_l, list_insert_id by (try assumption; lia).
    rewrite set_registers_same by exact Hb. reflexivity.
Qed.

(** The loop run from cell [i] for [n] iterations has merged exactly the
    cells [i .. i + n - 1]. *)
Lemma merge_loop_cells (hllRegisters : list Z) :
  Forall char_range hllRegisters ->
  forall (n i : nat) (self : HyperLogLog) (buf : list Z),
    registers self = Some buf -> length buf = length hllRegisters ->
    (i + n <= length buf)%nat ->
    exists buf',
      for_loop n (Z.of_nat i) (merge_step hllRegisters) self = Some (set_registers self buf') /\
      forall j : nat,
        buf' !! j = if bool_decide (i <= j < i + n)%nat
                    then registers_max buf hllRegisters !! j
                    else buf !! j.
Proof.
  intros Hchars. induction n as [|n IH]; intros i self buf Hb Hlen Hbound.
  - exists buf. simpl. rewrite set_registers_same by exact Hb. split; [reflexivity|].
    intros j. rewrite bool_decide_eq_false_2 by lia. reflexivity.
  - destruct (lookup_lt_is_Some_2 buf i) as [mine Hmine]; [lia|].
    destruct (lookup_lt_is_Some_2 hllRegisters i) as [theirs Htheirs]; [lia|].
    assert (char_range theirs) as Hc.
    { rewrite Forall_forall in Hchars. apply Hchars.
      eapply list_elem_of_lookup_2. exact Htheirs. }
    simpl. rewrite (merge_step_max _ _ _ buf mine theirs) by assumption.
    destruct (IH (S i) (set_registers self (<[i := Z.max mine theirs]> buf))
                (<[i := Z.max mine theirs]> buf)) as (buf' & Hloop & Hcells).
    { reflexivity. }
    { rewrite length_insert. exact Hlen. }
    { rewrite length_insert. lia. }
    exists buf'. split.
    + replace (Z.of_nat i + 1) with (Z.of_nat (S i)) by lia. rewrite Hloop. reflexivity.
    + intros j. rewrite Hcells.
      destruct (decide (j = i)) as [->|Hne].
      * rewrite bool_decide_eq_false_2, bool_decide_eq_true_2 by lia.
        rewrite list_lookup_insert_eq by lia.
        symmetry. apply registers_max_lookup; assumption.
      * unfold registers_max. rewrite lookup_zip_with.
        rewrite list_lookup_insert_ne by congruence.
        rewrite <- lookup_zip_with.
        destruct (decide (i <= j < i + S n)%nat) as [Hin|Hout].
        -- rewrite !bool_decide_eq_true_2 by lia. reflexivity.
        -- rewrite !bool_decide_eq_false_2 by lia. reflexivity.
Qed.

(** The whole loop computes the element-wise maximum. *)
Lemma merge_loop_max (self : HyperLogLog) (mine theirs : list Z) :
  registers self = Some mine -> length mine = length theirs -> Forall char_range theirs ->
  for_loop (length mine) 0 (merge_step theirs) self
  = Some (set_registers self (registers_max mine theirs)).
Proof.
  intros Hb Hlen Hchars.
  destruct (merge_loop_cells theirs Hchars (length mine) 0 self mine Hb Hlen)
    as (buf' & Hloop & Hcells); [lia|].
  change (Z.of_nat 0) with 0 in Hloop. rewrite Hloop. do 2 f_equal.
  apply list_eq. intros j. rewrite Hcells.
  destruct (decide (j < length mine)%nat) as [Hin|Hout].
  - rewrite bool_decide_eq_true_2 by lia. reflexivity.
  - rewrite bool_decide_eq_false_2 by lia.
    unfold registers_max. rewrite lookup_zip_with.
    rewrite (lookup_ge_None_2 mine j) by lia. reflexivity.
Qed.

Lemma valid_registers_copy (self : HyperLogLog) (buf : list Z) :
  valid self = true -> registers self = Some buf -> HyperLogLog_registers self = Some buf.
Proof.
  intros Hv Hb. destruct (valid_inv self Hv) as (_ & _ & buf' & Hb' & Hlen & _).
  rewrite Hb in Hb'. injection Hb' as <-.
  unfold HyperLogLog_registers. rewrite Hb.
  replace (size self <=? Z.of_nat (length buf)) with true by lia.
  rewrite take_ge by lia. reflexivity.
Qed.

Lemma ranks_in_char_range (buf : list Z) :
  Forall (fun r => 0 <= r <= 32) buf -> Forall char_range buf.
Proof.
  intros Hall. eapply Forall_impl; [exact Hall|].
  intros r Hr. simpl in Hr. unfold char_range. lia.
Qed.

Lemma valid_intro (self : HyperLogLog) (buf : list Z) :
  2 <= k self <= 16 -> size self = 2 ^ k self -> registers self = Some buf ->
  Z.of_nat (length buf) = size self -> Forall (fun r => 0 <= r <= 32) buf ->
  valid self = true.
Proof.
  intros Hk Hsz Hb Hlen Hall. unfold valid. rewrite Hb.
  replace (2 <=? k self) with true by lia. replace (k self <=? 16) with true by lia.
  replace (size self =? 2 ^ k self) with true by lia.
  replace (Z.of_nat (length buf) =? size self) with true by lia. simpl.
  apply forallb_forall. intros r Hr. apply list_elem_of_In in Hr.
  rewrite Forall_forall in Hall. apply Hall in Hr. unfold rank_ok. lia.
Qed.

Lemma merge_valid (me peer : HyperLogLog) (mine theirs : list Z) :
  valid me = true -> valid peer = true -> size peer = size me ->
  registers me = Some mine -> registers peer = Some theirs ->
  valid (set_registers me (registers_max mine theirs)) = true.
Proof.
  intros Hme Hpeer Hsz Hmine Htheirs.
  destruct (valid_inv me Hme) as (Hk & Hsize & b1 & Hb1 & Hl1 & Ha1).
  destruct (valid_inv peer Hpeer) as (_ & _ & b2 & Hb2 & Hl2 & Ha2).
  rewrite Hmine in Hb1. injection Hb1 as <-. rewrite Htheirs in Hb2. injection Hb2 as <-.
  apply (valid_intro _ (registers_max mine theirs)); try assumption; try reflexivity.
  - rewrite registers_max_length by lia. exact Hl1.
  - apply registers_max_ranks; assumption.
Qed.

(** Merging a peer of the same size, when the runtime took the bytearray's
    buffer from [malloc], replaces self by the element-wise maximum and
    touches nothing else in the store. *)
Lemma merge_same_size (alloc : Z -> bool) (heap : gmap addr HyperLogLog) (self hll : addr)
    (me peer : HyperLogLog) (mine theirs : list Z) :
  heap !! self = Some me -> heap !! hll = Some peer ->
  valid me = true -> valid peer = true -> size peer = size me ->
  registers me = Some mine -> registers peer = Some theirs ->
  alloc (size peer) = true ->
  HyperLogLog_merge alloc self hll heap
  = Returns (<[self := set_registers me (registers_max mine theirs)]> heap) tt.
Proof.
  intros Hself Hhll Hme Hpeer Hsz Hmine Htheirs Halloc.
  destruct (valid_inv me Hme) as (Hk & Hsize & b1 & Hb1 & Hl1 & Ha1).
  destruct (valid_inv peer Hpeer) as (_ & _ & b2 & Hb2 & Hl2 & Ha2).
  rewrite Hmine in Hb1. injection Hb1 as <-. rewrite Htheirs in Hb2. injection Hb2 as <-.
  unfold HyperLogLog_merge. rewrite Hself, Hhll. unfold HyperLogLog_size.
  replace (size peer =? size me) with true by lia. simpl.
  rewrite (valid_registers_copy peer theirs) by assumption.
  replace (Z.to_nat (size me)) with (length mine) by lia.
  rewrite merge_loop_max by (try assumption; try lia; apply ranks_in_char_range; assumption).
  rewrite Hl2, Halloc. reflexivity.
Qed.

(** When the runtime did not take the buffer from [malloc], the same call
    reaches line 208 and frees a pointer that [malloc] never returned. *)
Lemma merge_frees_foreign_buffer (alloc : Z -> bool) (heap : gmap addr HyperLogLog)
    (self hll : addr) (me peer : HyperLogLog) :
  heap !! self = Some me -> heap !! hll = Some peer ->
  valid me = true -> valid peer = true -> size peer = size me ->
  alloc (size peer) = false ->
  HyperLogLog_merge alloc self hll heap = Undefined.
Proof.
  intros Hself Hhll Hme Hpeer Hsz Halloc.
  destruct (valid_inv me Hme) as (Hk & Hsize & mine & Hmine & Hl1 & Ha1).
  destruct (valid_inv peer Hpeer) as (_ & _ & theirs & Htheirs & Hl2 & Ha2).
  unfold HyperLogLog_merge. rewrite Hself, Hhll. unfold HyperLogLog_size.
  replace (size peer =? size me) with true by lia. simpl.
  rewrite (valid_registers_copy peer theirs) by assumption.
  replace (Z.to_nat (size me)) with (length mine) by lia.
  rewrite merge_loop_max by (try assumption; try lia; apply ranks_in_char_range; assumption).
  rewrite Hl2, Halloc. reflexivity.
Qed.

Lemma merge_size_mismatch (alloc : Z -> bool) (heap : gmap addr HyperLogLog)
    (self hll : addr) (me peer : HyperLogLog) :
  heap !! self = Some me -> heap !! hll = Some peer -> size peer <> size me ->
  HyperLogLog_merge alloc self hll heap
  = Raises heap (ValueError "HyperLogLogs must be the same size").
Proof.
  intros Hself Hhll Hsz. unfold HyperLogLog_merge. rewrite Hself, Hhll.
  unfold HyperLogLog_size. replace (size peer =? size me) with false by lia.
  reflexivity.
Qed.

(** Under CPython's default allocator the bytearray's buffer comes from
    [malloc] exactly for the estimators with k >= 9. *)
Lemma pymalloc_allocator_size (self : HyperLogLog) :
  valid self = true -> (pymalloc_allocator (size self) = true <-> 9 <= k self).
Proof.
  intros Hv. destruct (valid_inv self Hv) as (Hk & -> & _).
  unfold pymalloc_allocator.
  destruct (Z_le_dec 9 (k self)) as [Hge|Hlt].
  - assert (2 ^ 9 <= 2 ^ k self) by (apply Z.pow_le_mono_r; lia).
    change (2 ^ 9) with 512 in *. split; [intros _; exact Hge | intros _; lia].
  - assert (2 ^ k self <= 2 ^ 8) by (apply Z.pow_le_mono_r; lia).
    change (2 ^ 8) with 256 in *. split; [intros Hc; lia | intros Hc; lia].
Qed.

(** C4, at the failing input: two valid estimators of size 4 under the
    default allocator.  The loop has computed the element-wise maximum, but
    line 208 then frees the buffer of the bytearray that registers() returned,
    which malloc did not hand out: the call does not return the merged
    registers.  With every buffer taken from malloc the same call returns the
    element-wise maximum, and a peer of another size raises ValueError. *)
Theorem merge_frees_bytearray_buffer :
  HyperLogLog_merge pymalloc_allocator 1%nat 2%nat example_heap = Undefined /\
  HyperLogLog_merge libc_allocator 1%nat 2%nat example_heap
  = Returns (<[1%nat := set_registers (fresh_estimator 2 314) [2; 3; 1; 0]]> example_heap) tt /\
  HyperLogLog_merge pymalloc_allocator 1%nat 3%nat example_heap
  = Raises example_heap (ValueError "HyperLogLogs must be the same size").
Proof. repeat apply conj; vm_compute; reflexivity. Qed.


(** X20: the outcomes of merge on two valid estimators.  A peer of another
    size raises ValueError and leaves the store unchanged.  With equal sizes
    the loop computes the element-wise maximum, and the call then frees the
    buffer of the bytearray that registers() returned: it returns, with self
    holding the maximum and the peer and every other object unchanged, exactly
    when the runtime took that buffer from malloc, and is undefined
    otherwise.  Under the default allocator the buffer comes from malloc
    exactly when k >= 9. *)
Theorem merge_outcome (alloc : Z -> bool) (heap : gmap addr HyperLogLog) (self hll : addr)
    (me peer : HyperLogLog) (mine theirs : list Z) :
  heap !! self = Some me -> heap !! hll = Some peer ->
  valid me = true -> valid peer = true ->
  registers me = Some mine -> registers peer = Some theirs ->
  (size peer <> size me <->
   HyperLogLog_merge alloc self hll heap
   = Raises heap (ValueError "HyperLogLogs must be the same size")) /\
  (size peer = size me /\ alloc (size peer) = false <->
   HyperLogLog_merge alloc self hll heap = Undefined) /\
  (size peer = size me /\ alloc (size peer) = true <->
   HyperLogLog_merge alloc self hll heap
   = Returns (<[self := set_registers me (registers_max mine theirs)]> heap) tt) /\
  (size peer = size me ->
   length (registers_max mine theirs) = length mine /\
   (forall (i : nat) (x y : Z),
      mine !! i = Some x -> theirs !! i = Some y ->
      registers_max mine theirs !! i = Some (Z.max x y)) /\
   (registers <$> (<[self := set_registers me (registers_max mine theirs)]> heap) !! hll)
   = Some (Some theirs)) /\
  (pymalloc_allocator (size peer) = true <-> 9 <= k peer).
Proof.
  intros Hself Hhll Hme Hpeer Hmine Htheirs.
  destruct (valid_inv me Hme) as (_ & _ & b1 & Hb1 & Hl1 & _).
  destruct (valid_inv peer Hpeer) as (_ & _ & b2 & Hb2 & Hl2 & _).
  rewrite Hmine in Hb1. injection Hb1 as <-. rewrite Htheirs in Hb2. injection Hb2 as <-.
  assert (size peer = size me ->
          length (registers_max mine theirs) = length mine /\
          (forall (i : nat) (x y : Z),
             mine !! i = Some x -> theirs !! i = Some y ->
             registers_max mine theirs !! i = Some (Z.max x y)) /\
          (registers <$> (<[self := set_registers me (registers_max mine theirs)]> heap) !! hll)
          = Some (Some theirs)) as Hcells.
  { intros Hsz. split; [apply registers_max_length; lia|].
    split; [intros i x y; apply registers_max_lookup|].
    destruct (decide (hll = self)) as [->|Hne].
    - rewrite lookup_insert_eq. simpl.
      rewrite Hself in Hhll. injection Hhll as <-.
      rewrite Hmine in Htheirs. injection Htheirs as <-.
      rewrite registers_max_self. reflexivity.
    - rewrite lookup_insert_ne, Hhll by congruence. simpl. rewrite Htheirs. reflexivity. }
  pose proof (pymalloc_allocator_size peer Hpeer) as Hpy.
  destruct (Z.eq_dec (size peer) (size me)) as [Hsz|Hsz].
  - destruct (alloc (size peer)) eqn:Halloc.
    + rewrite (merge_same_size alloc heap self hll me peer mine theirs) by assumption.
      repeat apply conj; try exact Hcells; try apply Hpy;
        intros Hcase; try reflexivity; try discriminate; try tauto;
        destruct Hcase; congruence.
    + rewrite (merge_frees_foreign_buffer alloc heap self hll me peer) by assumption.
      repeat apply conj; try exact Hcells; try apply Hpy;
        intros Hcase; try reflexivity; try discriminate; try tauto;
        destruct Hcase; congruence.
  - rewrite (merge_size_mismatch alloc heap self hll me peer) by assumption.
    repeat apply conj; try exact Hcells; try apply Hpy;
      intros Hcase; try reflexivity; try discriminate; try tauto;
      destruct Hcase; congruence.
Qed.

Lemma merge_outcome_witness :
  size (estimator_512 314 [2; 1; 0; 0]) = size (estimator_512 314 [0; 3; 1; 0]) /\
  pymalloc_allocator (size (estimator_512 314 [2; 1; 0; 0])) = true <->
  HyperLogLog_merge pymalloc_allocator 1%nat 2%nat heap_512
  = Returns
      (<[1%nat := set_registers (estimator_512 314 [0; 3; 1; 0])
                    (registers_max ([0; 3; 1; 0] ++ replicate 508 0)
                       ([2; 1; 0; 0] ++ replicate 508 0))]> heap_512) tt.
Proof.
  refine (proj1 (proj2 (proj2
            (merge_outcome pymalloc_allocator heap_512 1%nat 2%nat
               (estimator_512 314 [0; 3; 1; 0]) (estimator_512 314 [2; 1; 0; 0])
               ([0; 3; 1; 0] ++ replicate 508 0) ([2; 1; 0; 0] ++ replicate 508 0)
               _ _ _ _ _ _)))); vm_compute; reflexivity.
Defined.

(** X21: when the runtime takes the bytearray's buffer from malloc, merge is
    commutative and idempotent over valid estimators of equal size: merging A
    into B twice leaves the store that merging once leaves, and merging A into
    B gives B the register array that merging B into A, from the same original
    states, gives A, the element-wise maximum of the two original arrays. *)
Theorem merge_commutative_idempotent (alloc : Z -> bool) (heap : gmap addr HyperLogLog)
    (a b : addr) (A B : HyperLogLog) (ra rb : list Z) :
  heap !! a = Some A -> heap !! b = Some B ->
  valid A = true -> valid B = true -> size A = size B ->
  registers A = Some ra -> registers B = Some rb ->
  alloc (size A) = true ->
  exists heap_b heap_a,
    HyperLogLog_merge alloc b a heap = Returns heap_b tt /\
    HyperLogLog_merge alloc b a heap_b = Returns heap_b tt /\
    HyperLogLog_merge alloc a b heap = Returns heap_a tt /\
    (registers <$> heap_b !! b) = Some (Some (registers_max ra rb)) /\
    (registers <$> heap_a !! a) = Some (Some (registers_max ra rb)).
Proof.
  intros Ha Hb HvA HvB Hsz HrA HrB Halloc.
  assert (alloc (size B) = true) as HallocB by (rewrite <- Hsz; exact Halloc).
  exists (<[b := set_registers B (registers_max rb ra)]> heap),
         (<[a := set_registers A (registers_max ra rb)]> heap).
  pose proof (merge_valid B A rb ra HvB HvA Hsz HrB HrA) as HvB'.
  split; [apply (merge_same_size alloc heap b a B A rb ra); assumption|].
  split; [|split; [|split]].
  - destruct (decide (a = b)) as [->|Hne].
    + rewrite Ha in Hb. injection Hb as <-. rewrite HrA in HrB. injection HrB as <-.
      rewrite (merge_same_size alloc _ b b (set_registers A (registers_max ra ra))
                 (set_registers A (registers_max ra ra))
                 (registers_max ra ra) (registers_max ra ra));
        try assumption; try reflexivity; try (apply lookup_insert_eq).
      rewrite insert_insert_eq. simpl. unfold set_registers at 1. simpl.
      rewrite !registers_max_self. reflexivity.
    + rewrite (merge_same_size alloc _ b a (set_registers B (registers_max rb ra)) A
                 (registers_max rb ra) ra);
        try assumption; try reflexivity.
      * rewrite insert_insert_eq. unfold set_registers at 1. simpl.
        rewrite registers_max_absorb. reflexivity.
      * apply lookup_insert_eq.
      * rewrite lookup_insert_ne by congruence. exact Ha.
  - apply (merge_same_size alloc heap a b A B ra rb); try assumption. congruence.
  - rewrite lookup_insert_eq. simpl. rewrite registers_max_comm. reflexivity.
  - rewrite lookup_insert_eq. reflexivity.
Qed.

Lemma merge_commutative_idempotent_witness :
  exists heap_b heap_a,
    HyperLogLog_merge pymalloc_allocator 2%nat 1%nat heap_512 = Returns heap_b tt /\
    HyperLogLog_merge pymalloc_allocator 2%nat 1%nat heap_b = Returns heap_b tt /\
    HyperLogLog_merge pymalloc_allocator 1%nat 2%nat heap_512 = Returns heap_a tt /\
    (registers <$> heap_b !! 2%nat)
    = Some (Some (registers_max ([0; 3; 1; 0] ++ replicate 508 0)
                    ([2; 1; 0; 0] ++ replicate 508 0))) /\
    (registers <$> heap_a !! 1%nat)
    = Some (Some (registers_max ([0; 3; 1; 0] ++ replicate 508 0)
                    ([2; 1; 0; 0] ++ replicate 508 0))).
Proof.
  apply (merge_commutative_idempotent pymalloc_allocator heap_512 1%nat 2%nat
           (estimator_512 314 [0; 3; 1; 0]) (estimator_512 314 [2; 1; 0; 0])
           ([0; 3; 1; 0] ++ replicate 508 0) ([2; 1; 0; 0] ++ replicate 508 0));
    vm_compute; reflexivity.
Defined.

(** ** Estimation *)

(** The zero count of lines 135-138 is 0 whenever the buffer is allocated,
    whatever the cells hold. *)
Lemma cardinality_zeros_allocated (self : HyperLogLog) (buf : list Z) :
  registers self = Some buf -> cardinality_zeros self = 0.
Proof.
  intros Hb. unfold cardinality_zeros. rewrite Hb.
  rewrite bool_decide_eq_false_2 by discriminate.
  assert (forall (n : nat) (i zeros : Z),
             for_loop n i (fun _ zeros => Some zeros) zeros = Some zeros) as Hloop
    by (induction n as [|n IH]; intros i zeros; simpl; [reflexivity | apply IH]).
  rewrite Hloop. reflexivity.
Qed.

(** The sum loop reads inside the buffer of a valid estimator, so the call
    returns. *)
Lemma cardinality_sum_defined (self : HyperLogLog) :
  valid self = true -> exists sum, cardinality_sum self = Some sum.
Proof.
  intros Hv. destruct (valid_inv self Hv) as (_ & _ & buf & Hb & Hlen & _).
  unfold cardinality_sum.
  assert (forall (n i : nat) (acc : float),
             (i + n <= length buf)%nat ->
             exists sum,
               for_loop n (Z.of_nat i)
                 (fun i sum =>
                    match load self i with
                    | Some cell => Some (sum + 1.0 / pow_2 (char_to_u32 cell))%float
                    | None => None
                    end) acc = Some sum) as Hloop.
  { induction n as [|n IH]; intros i acc Hbound; simpl; [eauto|].
    destruct (lookup_lt_is_Some_2 buf i) as [cell Hcell]; [lia|].
    rewrite (load_in_bounds self buf), Nat2Z.id, Hcell by (try assumption; lia).
    replace (Z.of_nat i + 1) with (Z.of_nat (S i)) by lia.
    apply IH. lia. }
  apply (Hloop (Z.to_nat (size self)) 0%nat). lia.
Qed.

Lemma cardinality_returns (log : float -> float) (self : HyperLogLog) :
  valid self = true ->
  exists estimate, HyperLogLog_cardinality log self = Returns self estimate.
Proof.
  intros Hv. destruct (cardinality_sum_defined self Hv) as [sum Hsum].
  unfold HyperLogLog_cardinality. rewrite Hsum. eauto.
Qed.

(** C2, at the failing input: on a fresh estimator with k = 4 the raw
    estimate is within 2.5 * size and all 16 registers are 0, yet the zero
    count of cardinality is 0 and the value returned is the raw estimate, not
    the linear-counting value. *)
Theorem cardinality_zero_count_is_zero :
  cardinality_sum (fresh_estimator 4 314) = Some 16%float /\
  (cardinality_raw_estimate (fresh_estimator 4 314) 16
   <=? 2.5 * to_double (size (fresh_estimator 4 314)))%float = true /\
  zero_registers (replicate 16 0) = 16 /\
  registers (fresh_estimator 4 314) = Some (replicate 16 0) /\
  cardinality_zeros (fresh_estimator 4 314) = 0 /\
  forall log : float -> float,
    HyperLogLog_cardinality log (fresh_estimator 4 314)
    = Returns (fresh_estimator 4 314)
        (cardinality_raw_estimate (fresh_estimator 4 314) 16).
Proof.
  do 5 (apply conj; [vm_compute; reflexivity|]).
  intros log. vm_compute. reflexivity.
Qed.

(** C3, at the failing input: with all 16 registers 0 (k = 4), cardinality
    returns alpha * size = 0.673 * 16, which is not 0. *)
Theorem cardinality_all_zero_not_zero (log : float -> float) :
  valid (fresh_estimator 4 314) = true /\
  HyperLogLog_registers (fresh_estimator 4 314) = Some (replicate 16 0) /\
  HyperLogLog_cardinality log (fresh_estimator 4 314)
  = Returns (fresh_estimator 4 314) (0.673 * 16)%float /\
  (0.673 * 16 =? 0)%float = false /\
  (0 <? 0.673 * 16)%float = true.
Proof. repeat apply conj; vm_compute; reflexivity. Qed.

(** For every allocated estimator the linear-counting value is never
    selected: the estimate is computed as if the small-range test kept the
    raw estimate. *)
Lemma cardinality_estimate_allocated (log : float -> float) (self : HyperLogLog)
    (buf : list Z) (raw_estimate : float) :
  registers self = Some buf ->
  cardinality_estimate log self raw_estimate
  = (let estimate :=
       if raw_estimate <=? 2.5 * to_double (size self) then raw_estimate else 0 in
     let estimate :=
       if estimate <=? (1.0 / 30.0) * two_32 then raw_estimate else estimate in
     if (1.0 / 30.0) * two_32 <? estimate
     then neg_two_32 * log (1.0 - raw_estimate / two_32)
     else estimate)%float.
Proof.
  intros Hb. unfold cardinality_estimate.
  rewrite (cardinality_zeros_allocated self buf Hb). reflexivity.
Qed.

(** ** The hash instance *)

Lemma lxor_u32 (x y : Z) : 0 <= x < 2 ^ 32 -> 0 <= y < 2 ^ 32 -> 0 <= Z.lxor x y < 2 ^ 32.
Proof.
  intros Hx Hy.
  assert (0 <= Z.lxor x y) as Hnn by (apply Z.lxor_nonneg; lia).
  split; [exact Hnn|].
  destruct (Z.eq_dec (Z.lxor x y) 0) as [->|Hnz]; [lia|].
  apply Z.log2_lt_pow2; [lia|].
  pose proof (Z.log2_lxor x y ltac:(lia) ltac:(lia)) as Hlog.
  assert (Z.log2 x < 32).
  { destruct (Z.eq_dec x 0) as [->|?]; [simpl; lia | apply Z.log2_lt_pow2; lia]. }
  assert (Z.log2 y < 32).
  { destruct (Z.eq_dec y 0) as [->|?]; [simpl; lia | apply Z.log2_lt_pow2; lia]. }
  lia.
Qed.

Lemma shr_u32 (x n : Z) : 0 <= n -> 0 <= x < 2 ^ 32 -> 0 <= U32.shr x n < 2 ^ 32.
Proof.
  intros Hn Hx. unfold U32.shr. rewrite Z.shiftr_div_pow2 by lia.
  assert (0 < 2 ^ n) by (apply Z.pow_pos_nonneg; lia).
  split; [apply Z.div_pos; lia|].
  apply Z.div_lt_upper_bound; nia.
Qed.

(** Published known answers of MurmurHash3 x86_32. *)
Example MurmurHash3_x86_32_known_answers :
  Murmur3.MurmurHash3_x86_32 (bytes_of "") 0 = 0 /\
  Murmur3.MurmurHash3_x86_32 (bytes_of "") 1 = 0x514E28B7 /\
  Murmur3.MurmurHash3_x86_32 (bytes_of "") 0xffffffff = 0x81F16F39 /\
  Murmur3.MurmurHash3_x86_32 (bytes_of "test") 0 = 0xba6bd213 /\
  Murmur3.MurmurHash3_x86_32 (bytes_of "Hello, world!") 0 = 0xc0363e43 /\
  Murmur3.MurmurHash3_x86_32
    (bytes_of "The quick brown fox jumps over the lazy dog") 0x9747b28c = 0x2FA826CD.
Proof. repeat apply conj; vm_compute; reflexivity. Qed.

(** The hash instance writes an unsigned 32-bit word for every key and seed. *)
Lemma MurmurHash3_x86_32_in_range (key : list Byte.byte) (sd : Z) :
  U32.in_range (Murmur3.MurmurHash3_x86_32 key sd).
Proof.
  unfold U32.in_range, U32.modulus, Murmur3.MurmurHash3_x86_32, Murmur3.fmix32.
  cbv zeta. apply lxor_u32; [|apply shr_u32; [lia|]]; apply wrap32_range.
Qed.

(** * Further properties of the code *)

(** ** Bit utilities, on every 32-bit word *)

(** X1: on every unsigned 32-bit word leadingZeroCount is the number of
    leading zero bits of the word: it lies in [0, 32], is 32 exactly on 0, and
    a non-zero x lies in [2^(31 - n), 2^(32 - n)) for n = leadingZeroCount x. *)
Theorem leadingZeroCount_correct (x : Z) :
  U32.in_range x ->
  leadingZeroCount x = Z.of_nat (leading_zero_bits 32 x) /\
  0 <= leadingZeroCount x <= 32 /\
  (leadingZeroCount x = 32 <-> x = 0) /\
  (0 < x -> 2 ^ (31 - leadingZeroCount x) <= x < 2 ^ (32 - leadingZeroCount x)).
Proof.
  unfold U32.in_range, U32.modulus. intros Hx.
  destruct (Z.eq_dec x 0) as [->|Hnz].
  - rewrite leadingZeroCount_0, leading_zero_bits_0.
    repeat split; try lia.
  - pose proof (log2_u32 x ltac:(lia)) as Hlog.
    pose proof (Z.log2_spec x ltac:(lia)) as Hspec.
    rewrite leadingZeroCount_log2 by lia.
    rewrite (leading_zero_bits_log2 32 x) by (simpl; lia).
    repeat split; try lia.
    + replace (31 - (31 - Z.log2 x)) with (Z.log2 x) by lia. lia.
    + replace (32 - (31 - Z.log2 x)) with (Z.succ (Z.log2 x)) by lia. lia.
Qed.

Lemma leadingZeroCount_correct_witness :
  leadingZeroCount 0x00010000 = Z.of_nat (leading_zero_bits 32 0x00010000) /\
  leadingZeroCount 0x00010000 = 15.
Proof.
  split; [|reflexivity].
  refine (proj1 (leadingZeroCount_correct 0x00010000 _)).
  unfold U32.in_range, U32.modulus. lia.
Defined.

(** ** Hash mapping *)

(** X2: the rank is r, for r in [1, 32 - k], exactly when the low-order
    remainder of the hash lies in [2^(32 - k - r), 2^(33 - k - r)), and it is
    33 - k exactly when the remainder is 0; so the rank is always in
    [1, 33 - k]. *)
Theorem add_rank_interval (self : HyperLogLog) (hash r : Z) :
  2 <= k self <= 16 -> U32.in_range hash -> 1 <= r <= 32 - k self ->
  (add_rank self hash = r <->
   2 ^ (32 - k self - r) <= low_bits (k self) hash < 2 ^ (33 - k self - r)) /\
  (add_rank self hash = 33 - k self <-> low_bits (k self) hash = 0) /\
  1 <= add_rank self hash <= 33 - k self.
Proof.
  unfold U32.in_range, U32.modulus. intros Hk Hh Hr.
  assert (0 <= low_bits (k self) hash < 2 ^ (32 - k self)) as Hlow
    by (apply Z.mod_pos_bound, Z.pow_pos_nonneg; lia).
  assert (0 < 2 ^ (32 - k self - r)) as Hpos by (apply Z.pow_pos_nonneg; lia).
  pose proof (add_rank_bounds self hash Hk Hh) as Hb.
  destruct (Z.eq_dec (low_bits (k self) hash) 0) as [Hz|Hnz].
  - rewrite add_rank_zero_remainder, Hz by assumption.
    repeat split; intros; lia.
  - rewrite add_rank_log2 by lia.
    pose proof (Z.log2_spec (low_bits (k self) hash) ltac:(lia)) as Hspec.
    assert (Z.log2 (low_bits (k self) hash) < 32 - k self) by (apply Z.log2_lt_pow2; lia).
    pose proof (Z.log2_nonneg (low_bits (k self) hash)).
    split; [|split; [split; intros; lia | lia]].
    split.
    + intros Heq.
      replace (32 - k self - r) with (Z.log2 (low_bits (k self) hash)) by lia.
      replace (33 - k self - r) with (Z.succ (Z.log2 (low_bits (k self) hash))) by lia.
      exact Hspec.
    + intros Hint.
      assert (Z.log2 (low_bits (k self) hash) = 32 - k self - r) as ->.
      { apply Z.log2_unique; [lia|].
        replace (Z.succ (32 - k self - r)) with (33 - k self - r) by lia. exact Hint. }
      lia.
Qed.

Lemma add_rank_interval_witness :
  add_rank (fresh_estimator 4 314) 0x00000400 = 18 <->
  2 ^ (32 - 4 - 18) <= low_bits 4 0x00000400 < 2 ^ (33 - 4 - 18).
Proof.
  refine (proj1 (add_rank_interval (fresh_estimator 4 314) 0x00000400 18 _ _ _)).
  - simpl. lia.
  - unfold U32.in_range, U32.modulus. lia.
  - simpl. lia.
Defined.

(** ** Insertion: outcomes and what it keeps *)

Lemma insert_as_alter (f : Z -> Z) (i : nat) (buf : list Z) (cell : Z) :
  buf !! i = Some cell -> <[i := f cell]> buf = alter f i buf.
Proof.
  intros Hcell. apply list_eq. intros j.
  destruct (decide (j = i)) as [->|Hne].
  - rewrite list_lookup_insert_eq by (eapply lookup_lt_Some; exact Hcell).
    rewrite list_lookup_alter_eq, Hcell. reflexivity.
  - rewrite list_lookup_insert_ne, list_lookup_alter_ne by congruence. reflexivity.
Qed.

(** Insertion on a valid estimator, in closed form. *)
Lemma add_hash_alter (self : HyperLogLog) (hash : Z) (buf : list Z) :
  valid self = true -> 0 <= hash < 2 ^ 32 -> registers self = Some buf ->
  add_index self hash < size self ->
  add_hash self hash
  = Returns (set_registers self
               (alter (Z.max (add_rank self hash)) (Z.to_nat (add_index self hash)) buf)) tt.
Proof.
  intros Hv Hh Hb Hin.
  destruct (add_hash_in_bounds self hash buf Hv Hh Hb Hin) as (cell & Hcell & Heq).
  rewrite Heq. do 2 f_equal.
  rewrite Z.max_comm. apply (insert_as_alter (Z.max (add_rank self hash))). exact Hcell.
Qed.

(** X3: on a valid estimator and a 32-bit hash, insertion never raises; it
    returns exactly when the top k bits of the hash are not all ones, and it
    accesses the cell one past the buffer exactly when they are. *)
Theorem add_hash_outcome (self : HyperLogLog) (hash : Z) :
  valid self = true -> U32.in_range hash ->
  (top_bits (k self) hash < 2 ^ k self - 1 <->
   exists self', add_hash self hash = Returns self' tt) /\
  (top_bits (k self) hash = 2 ^ k self - 1 <-> add_hash self hash = Undefined) /\
  (forall st e, add_hash self hash <> Raises st e).
Proof.
  unfold U32.in_range, U32.modulus. intros Hv Hh.
  destruct (valid_inv self Hv) as (Hk & Hsz & buf & Hb & Hlen & Hall).
  destruct (add_index_top_bits self hash Hk Hh) as [Htop Hidx].
  destruct (Z_lt_dec (top_bits (k self) hash) (2 ^ k self - 1)) as [Hlt|Hge].
  - rewrite (add_hash_alter self hash buf) by (try assumption; lia).
    split; [|split].
    + split; [intros _; eauto | intros _; exact Hlt].
    + split; [intros ?; lia | intros ?; discriminate].
    + intros st e. discriminate.
  - rewrite add_hash_past_the_end by (try assumption; lia).
    split; [|split].
    + split; [intros ?; lia | intros [self' ?]; discriminate].
    + split; [reflexivity | intros _; lia].
    + intros st e. discriminate.
Qed.

Lemma add_hash_outcome_witness :
  top_bits (k (fresh_estimator 2 314)) 0xC0000000 = 2 ^ k (fresh_estimator 2 314) - 1 <->
  add_hash (fresh_estimator 2 314) 0xC0000000 = Undefined.
Proof.
  refine (proj1 (proj2 (add_hash_outcome (fresh_estimator 2 314) 0xC0000000 _ _))).
  - reflexivity.
  - unfold U32.in_range, U32.modulus. lia.
Defined.

(** X4: an insertion that returns leaves k, seed and size as they were and
    the estimator valid; no register decreases, only the register at the
    computed index can change, and that register ends at least at the rank. *)
Theorem add_keeps_and_grows (hashfn : list Byte.byte -> Z -> Z)
    (self self' : HyperLogLog) (data : list Byte.byte) :
  valid self = true -> U32.in_range (hashfn data (seed self)) ->
  HyperLogLog_add hashfn self data = Returns self' tt ->
  k self' = k self /\ seed self' = seed self /\ size self' = size self /\
  valid self' = true /\
  exists buf buf',
    registers self = Some buf /\ registers self' = Some buf' /\
    length buf' = length buf /\
    (forall (j : nat) (old : Z), buf !! j = Some old ->
       exists new, buf' !! j = Some new /\ old <= new /\
                   (j <> Z.to_nat (add_index self (hashfn data (seed self))) -> new = old)) /\
    (exists new, buf' !! Z.to_nat (add_index self (hashfn data (seed self))) = Some new /\
                 add_rank self (hashfn data (seed self)) <= new).
Proof.
  unfold U32.in_range, U32.modulus, HyperLogLog_add. intros Hv Hh Hadd.
  destruct (add_hash_valid self self' _ Hv Hh Hadd) as (Hv' & Hk' & Hseed' & Hsz').
  repeat (split; [assumption|]).
  destruct (valid_inv self Hv) as (Hk & Hsz & buf & Hb & Hlen & Hall).
  destruct (Z_lt_dec (add_index self (hashfn data (seed self))) (size self)) as [Hin|Hout].
  - rewrite (add_hash_alter self _ buf) in Hadd by assumption.
    injection Hadd as <-.
    exists buf, (alter (Z.max (add_rank self (hashfn data (seed self))))
                   (Z.to_nat (add_index self (hashfn data (seed self)))) buf).
    split; [exact Hb|]. split; [reflexivity|]. split; [apply length_alter|].
    destruct (add_index_top_bits self _ Hk Hh) as [Htop Hidx].
    split.
    + intros j old Hold.
      destruct (decide (Z.to_nat (add_index self (hashfn data (seed self))) = j)) as [<-|Hne].
      * rewrite list_lookup_alter_eq, Hold. simpl.
        eexists. split; [reflexivity|]. split; [lia | intros Hcontra; congruence].
      * rewrite list_lookup_alter_ne, Hold by exact Hne.
        eexists. split; [reflexivity|]. split; [lia | reflexivity].
    + destruct (lookup_lt_is_Some_2 buf (Z.to_nat (add_index self (hashfn data (seed self)))))
        as [old Hold]; [lia|].
      rewrite list_lookup_alter_eq, Hold. simpl.
      eexists. split; [reflexivity | lia].
  - rewrite add_hash_past_the_end in Hadd by (try assumption; lia). discriminate.
Qed.

Lemma add_keeps_and_grows_witness :
  valid (set_registers (fresh_estimator 2 314) [0; 0; 2; 0]) = true.
Proof.
  refine (proj1 (proj2 (proj2 (proj2
            (add_keeps_and_grows Murmur3.MurmurHash3_x86_32 (fresh_estimator 2 314)
               (set_registers (fresh_estimator 2 314) [0; 0; 2; 0]) (bytes_of "") _ _ _))))).
  - reflexivity.
  - vm_compute. split; [discriminate | reflexivity].
  - vm_compute. reflexivity.
Defined.

(** ** Sequences of insertions *)

Lemma add_hash_closed (self : HyperLogLog) (hash : Z) (buf : list Z) :
  valid self = true -> 0 <= hash < 2 ^ 32 -> registers self = Some buf ->
  add_hash self hash
  = if add_index self hash <? size self
    then Returns (set_registers self
                    (alter (Z.max (add_rank self hash)) (Z.to_nat (add_index self hash)) buf)) tt
    else Undefined.
Proof.
  intros Hv Hh Hb. destruct (Z.ltb_spec (add_index self hash) (size self)) as [Hin|Hout].
  - apply add_hash_alter; assumption.
  - apply add_hash_past_the_end; assumption.
Qed.

Lemma alter_max_swap (r1 r2 : Z) (i1 i2 : nat) (buf : list Z) :
  alter (Z.max r2) i2 (alter (Z.max r1) i1 buf)
  = alter (Z.max r1) i1 (alter (Z.max r2) i2 buf).
Proof.
  apply list_eq. intros j. rewrite !list_lookup_alter.
  repeat case_decide; subst; try congruence; try reflexivity.
  destruct (buf !! j) as [c|]; cbn -[Z.max]; [|reflexivity].
  f_equal. lia.
Qed.

Lemma add_index_set_registers (self : HyperLogLog) (buf : list Z) (hash : Z) :
  add_index (set_registers self buf) hash = add_index self hash.
Proof. unfold add_index. simpl k. reflexivity. Qed.

Lemma add_rank_set_registers (self : HyperLogLog) (buf : list Z) (hash : Z) :
  add_rank (set_registers self buf) hash = add_rank self hash.
Proof. unfold add_rank. simpl k. reflexivity. Qed.

Lemma set_registers_twice (self : HyperLogLog) (b1 b2 : list Z) :
  set_registers (set_registers self b1) b2 = set_registers self b2.
Proof. reflexivity. Qed.

(** Two insertions give the same outcome in either order. *)
Lemma add_hash_swap (self : HyperLogLog) (h1 h2 : Z) :
  valid self = true -> 0 <= h1 < 2 ^ 32 -> 0 <= h2 < 2 ^ 32 ->
  and_then (add_hash self h1) (fun self' => add_hash self' h2)
  = and_then (add_hash self h2) (fun self' => add_hash self' h1).
Proof.
  intros Hv H1 H2.
  destruct (valid_inv self Hv) as (Hk & Hsz & buf & Hb & Hlen & Hall).
  assert (forall ha hb : Z, 0 <= ha < 2 ^ 32 -> 0 <= hb < 2 ^ 32 ->
            and_then (add_hash self ha) (fun self' => add_hash self' hb)
            = if (add_index self ha <? size self) && (add_index self hb <? size self)
              then Returns (set_registers self
                              (alter (Z.max (add_rank self hb)) (Z.to_nat (add_index self hb))
                                 (alter (Z.max (add_rank self ha))
                                    (Z.to_nat (add_index self ha)) buf))) tt
              else Undefined) as Hseq.
  { intros ha hb Ha Hb'.
    destruct (add_hash self ha) as [s1 []| |] eqn:Hadd.
    - destruct (add_hash_valid self s1 ha Hv Ha Hadd) as (Hv1 & Hk1 & _ & Hsz1).
      rewrite (add_hash_closed self ha buf) in Hadd by assumption.
      destruct (add_index self ha <? size self); [|discriminate].
      injection Hadd as <-. simpl.
      rewrite (add_hash_closed _ hb
                 (alter (Z.max (add_rank self ha)) (Z.to_nat (add_index self ha)) buf))
        by (try assumption; reflexivity).
      rewrite add_index_set_registers, add_rank_set_registers, set_registers_twice.
      change (size (set_registers self
                      (alter (Z.max (add_rank self ha)) (Z.to_nat (add_index self ha)) buf)))
        with (size self).
      reflexivity.
    - rewrite (add_hash_closed self ha buf) in Hadd by assumption.
      destruct (add_index self ha <? size self); discriminate.
    - rewrite (add_hash_closed self ha buf) in Hadd by assumption.
      destruct (add_index self ha <? size self); [discriminate|]. reflexivity. }
  rewrite (Hseq h1 h2), (Hseq h2 h1) by assumption.
  rewrite alter_max_swap, (andb_comm (add_index self h2 <? size self)). reflexivity.
Qed.

Section Sequences.

Variable hashfn : list Byte.byte -> Z -> Z.
Hypothesis hashfn_in_range : forall key sd, U32.in_range (hashfn key sd).

Lemma hashfn_u32 (key : list Byte.byte) (sd : Z) : 0 <= hashfn key sd < 2 ^ 32.
Proof. apply hashfn_in_range. Qed.

Lemma add_valid (self self' : HyperLogLog) (data : list Byte.byte) :
  valid self = true -> HyperLogLog_add hashfn self data = Returns self' tt ->
  valid self' = true /\ k self' = k self /\ seed self' = seed self /\ size self' = size self.
Proof. intros Hv Hadd. eapply add_hash_valid; [exact Hv | apply hashfn_u32 | exact Hadd]. Qed.

Lemma add_all_valid (items : list (list Byte.byte)) :
  forall self self' : HyperLogLog,
    valid self = true -> add_all hashfn self items = Returns self' tt ->
    valid self' = true /\ k self' = k self /\ seed self' = seed self /\ size self' = size self.
Proof.
  induction items as [|data rest IH]; intros self self' Hv Hall; simpl in Hall.
  - injection Hall as <-. repeat split; assumption.
  - destruct (HyperLogLog_add hashfn self data) as [s1 []| |] eqn:Hadd; simpl in Hall;
      try discriminate.
    destruct (add_valid self s1 data Hv Hadd) as (Hv1 & Hk1 & Hseed1 & Hsz1).
    destruct (IH s1 self' Hv1 Hall) as (Hv' & Hk' & Hseed' & Hsz').
    repeat split; congruence.
Qed.

Lemma add_all_app (l1 l2 : list (list Byte.byte)) :
  forall self : HyperLogLog,
    add_all hashfn self (l1 ++ l2)
    = and_then (add_all hashfn self l1) (fun self' => add_all hashfn self' l2).
Proof.
  induction l1 as [|data rest IH]; intros self; simpl; [reflexivity|].
  destruct (HyperLogLog_add hashfn self data) as [s1 []| |]; simpl; try reflexivity.
  apply IH.
Qed.

Lemma and_then_ext (o : outcome HyperLogLog unit)
    (f g : HyperLogLog -> outcome HyperLogLog unit) :
  (forall self', o = Returns self' tt -> f self' = g self') -> and_then o f = and_then o g.
Proof. intros Hfg. destruct o as [s1 []| |]; simpl; [apply Hfg|..]; reflexivity. Qed.

Lemma add_swap (self : HyperLogLog) (d1 d2 : list Byte.byte) :
  valid self = true ->
  and_then (HyperLogLog_add hashfn self d1) (fun self' => HyperLogLog_add hashfn self' d2)
  = and_then (HyperLogLog_add hashfn self d2) (fun self' => HyperLogLog_add hashfn self' d1).
Proof.
  intros Hv. unfold HyperLogLog_add.
  transitivity (and_then (add_hash self (hashfn d1 (seed self)))
                  (fun self' => add_hash self' (hashfn d2 (seed self)))).
  { apply and_then_ext. intros s1 H1.
    destruct (add_hash_valid _ _ _ Hv (hashfn_u32 _ _) H1) as (_ & _ & -> & _).
    reflexivity. }
  transitivity (and_then (add_hash self (hashfn d2 (seed self)))
                  (fun self' => add_hash self' (hashfn d1 (seed self)))).
  { apply add_hash_swap; [exact Hv | apply hashfn_u32 | apply hashfn_u32]. }
  apply and_then_ext. intros s2 H2.
  destruct (add_hash_valid _ _ _ Hv (hashfn_u32 _ _) H2) as (_ & _ & -> & _).
  reflexivity.
Qed.

Lemma add_all_two (self : HyperLogLog) (d1 d2 : list Byte.byte)
    (rest : list (list Byte.byte)) :
  add_all hashfn self (d1 :: d2 :: rest)
  = and_then
      (and_then (HyperLogLog_add hashfn self d1)
         (fun self' => HyperLogLog_add hashfn self' d2))
      (fun self' => add_all hashfn self' rest).
Proof.
  cbn [add_all]. destruct (HyperLogLog_add hashfn self d1) as [s1 []| |]; reflexivity.
Qed.

Lemma add_all_permutation (l1 l2 : list (list Byte.byte)) :
  l1 ≡ₚ l2 ->
  forall self : HyperLogLog,
    valid self = true -> add_all hashfn self l1 = add_all hashfn self l2.
Proof.
  induction 1 as [|d l1 l2 Hperm IH|d1 d2 l|l1 l2 l3 H12 IH12 H23 IH23]; intros self Hv.
  - reflexivity.
  - cbn [add_all]. apply and_then_ext. intros s1 Hadd.
    apply IH. eapply add_valid; eassumption.
  - rewrite !add_all_two, (add_swap self d1 d2 Hv). reflexivity.
  - rewrite IH12, IH23 by assumption. reflexivity.
Qed.

Lemma add_all_duplicate (d : list Byte.byte) (l : list (list Byte.byte)) (self : HyperLogLog) :
  valid self = true -> add_all hashfn self (d :: d :: l) = add_all hashfn self (d :: l).
Proof.
  intros Hv. cbn [add_all]. apply and_then_ext. intros s1 Hadd.
  assert (HyperLogLog_add hashfn s1 d = Returns s1 tt) as ->; [|reflexivity].
  unfold HyperLogLog_add in *.
  destruct (add_hash_valid _ _ _ Hv (hashfn_u32 _ _) Hadd) as (_ & _ & -> & _).
  eapply add_hash_twice; [exact Hv | apply hashfn_u32 | exact Hadd].
Qed.

Lemma add_all_remove_dups (l : list (list Byte.byte)) :
  forall self : HyperLogLog,
    valid self = true -> add_all hashfn self l = add_all hashfn self (remove_dups l).
Proof.
  induction l as [|d l IH]; intros self Hv; [reflexivity|].
  simpl remove_dups. destruct (decide_rel elem_of d l) as [Hin|Hnotin].
  - rewrite <- IH by exact Hv.
    apply elem_of_Permutation in Hin as [l' Hl'].
    rewrite (add_all_permutation (d :: l) (d :: d :: l')) by (try assumption; rewrite Hl'; reflexivity).
    rewrite add_all_duplicate by exact Hv.
    apply add_all_permutation; [symmetry; exact Hl' | exact Hv].
  - cbn [add_all]. apply and_then_ext. intros s1 Hadd.
    apply IH. eapply add_valid; eassumption.
Qed.

(** X5: the outcome of inserting a list of byte strings into a valid
    estimator depends only on which byte strings occur in the list: order and
    repetitions do not matter. *)
Theorem add_all_same_elements (self : HyperLogLog) (l1 l2 : list (list Byte.byte)) :
  valid self = true -> (forall d, d ∈ l1 <-> d ∈ l2) ->
  add_all hashfn self l1 = add_all hashfn self l2.
Proof.
  intros Hv Hsame.
  rewrite (add_all_remove_dups l1), (add_all_remove_dups l2) by exact Hv.
  apply add_all_permutation; [|exact Hv].
  apply NoDup_Permutation; try apply NoDup_remove_dups.
  intros d. rewrite !elem_of_remove_dups. apply Hsame.
Qed.

End Sequences.

Lemma add_all_same_elements_witness :
  add_all Murmur3.MurmurHash3_x86_32 (fresh_estimator 2 314)
    [bytes_of ""; bytes_of "b"; bytes_of ""]
  = add_all Murmur3.MurmurHash3_x86_32 (fresh_estimator 2 314) [bytes_of "b"; bytes_of ""].
Proof.
  apply (add_all_same_elements Murmur3.MurmurHash3_x86_32 MurmurHash3_x86_32_in_range).
  - reflexivity.
  - intros d. rewrite !elem_of_cons. tauto.
Defined.

Section Reachable.

Variable hashfn : list Byte.byte -> Z -> Z.
Hypothesis hashfn_in_range : forall key sd, U32.in_range (hashfn key sd).

Lemma add_keeps_rank_bound (self self' : HyperLogLog) (data : list Byte.byte) (buf : list Z) :
  valid self = true -> registers self = Some buf ->
  Forall (fun r => 0 <= r <= 33 - k self) buf ->
  HyperLogLog_add hashfn self data = Returns self' tt ->
  exists buf', registers self' = Some buf' /\ Forall (fun r => 0 <= r <= 33 - k self) buf'.
Proof.
  intros Hv Hb Hbound Hadd. unfold HyperLogLog_add in Hadd.
  destruct (valid_inv self Hv) as (Hk & _).
  pose proof (hashfn_u32 hashfn hashfn_in_range data (seed self)) as Hh.
  pose proof (add_rank_bounds self _ Hk Hh) as Hrank.
  rewrite (add_hash_closed self _ buf) in Hadd by assumption.
  destruct (add_index self (hashfn data (seed self)) <? size self); [|discriminate].
  injection Hadd as <-. eexists. split; [reflexivity|].
  apply Forall_alter; [exact Hbound|].
  intros r _ Hr. simpl in Hr. lia.
Qed.

(** X6: every state reached from a freshly constructed estimator by
    insertions alone is valid, keeps k, seed and size = 2^k, and holds only
    ranks in [0, 33 - k]. *)
Theorem add_all_from_fresh (kk sd : Z) (items : list (list Byte.byte)) (self' : HyperLogLog) :
  2 <= kk <= 16 ->
  add_all hashfn (fresh_estimator kk sd) items = Returns self' tt ->
  valid self' = true /\ k self' = kk /\ seed self' = sd /\ size self' = 2 ^ kk /\
  exists buf, registers self' = Some buf /\ Z.of_nat (length buf) = 2 ^ kk /\
              Forall (fun r => 0 <= r <= 33 - kk) buf.
Proof.
  intros Hk Hall.
  pose proof (fresh_estimator_valid kk sd Hk) as Hv0.
  destruct (add_all_valid hashfn hashfn_in_range items _ _ Hv0 Hall) as (Hv' & Hk' & Hs' & Hz').
  repeat (split; [assumption|]).
  assert (forall (l : list (list Byte.byte)) (s s' : HyperLogLog) (buf : list Z),
            valid s = true -> registers s = Some buf ->
            Forall (fun r => 0 <= r <= 33 - k s) buf ->
            add_all hashfn s l = Returns s' tt ->
            exists buf', registers s' = Some buf' /\
                         Forall (fun r => 0 <= r <= 33 - k s) buf') as Hinv.
  { induction l as [|d l IH]; intros s s' buf Hv Hb Hbound Hrun; cbn [add_all] in Hrun.
    - injection Hrun as <-. eauto.
    - destruct (HyperLogLog_add hashfn s d) as [s1 []| |] eqn:Hadd; simpl in Hrun;
        try discriminate.
      destruct (add_keeps_rank_bound s s1 d buf Hv Hb Hbound Hadd) as (buf1 & Hb1 & Hbound1).
      destruct (add_valid hashfn hashfn_in_range s s1 d Hv Hadd) as (Hv1 & Hk1 & _).
      rewrite <- Hk1 in Hbound1.
      destruct (IH s1 s' buf1 Hv1 Hb1 Hbound1 Hrun) as (buf' & Hb' & Hbound').
      rewrite Hk1 in Hbound'. eauto. }
  destruct (Hinv items (fresh_estimator kk sd) self' _ Hv0 eq_refl) as (buf' & Hb' & Hbound');
    [|exact Hall|].
  { simpl. apply Forall_forall. intros r Hr. apply elem_of_replicate in Hr as [-> _]. lia. }
  exists buf'. split; [exact Hb'|]. split; [|exact Hbound'].
  destruct (valid_inv self' Hv') as (_ & _ & b & Hb & Hlen & _).
  rewrite Hb' in Hb. injection Hb as <-. rewrite Hlen. exact Hz'.
Qed.

End Reachable.

Lemma add_all_from_fresh_witness :
  valid (set_registers (fresh_estimator 2 314) [0; 0; 2; 1]) = true.
Proof.
  refine (proj1 (add_all_from_fresh Murmur3.MurmurHash3_x86_32 MurmurHash3_x86_32_in_range
                   2 314 [bytes_of ""; bytes_of "b"]
                   (set_registers (fresh_estimator 2 314) [0; 0; 2; 1]) _ _)).
  - lia.
  - vm_compute. reflexivity.
Defined.

(** ** Merge and insertion together *)

Lemma registers_max_alter (r : Z) (i : nat) (a b : list Z) :
  registers_max (alter (Z.max r) i a) b = alter (Z.max r) i (registers_max a b).
Proof.
  unfold registers_max. apply list_eq. intros j.
  rewrite lookup_zip_with, !list_lookup_alter.
  case_decide; subst; rewrite ?lookup_zip_with;
    destruct (a !! _) as [x|]; destruct (b !! _) as [y|]; cbn -[Z.max]; try reflexivity.
  f_equal. lia.
Qed.

Lemma registers_max_zeros (n : nat) (a : list Z) :
  length a = n -> Forall (fun r => 0 <= r <= 32) a -> registers_max (replicate n 0) a = a.
Proof.
  intros <- Hall. unfold registers_max.
  induction Hall as [|x a Hx Hall IH]; simpl; [reflexivity|].
  rewrite IH, Z.max_r by lia. reflexivity.
Qed.

Lemma merged_valid (self : HyperLogLog) (mine theirs : list Z) :
  valid self = true -> registers self = Some mine -> length theirs = length mine ->
  Forall (fun r => 0 <= r <= 32) theirs ->
  valid (set_registers self (registers_max mine theirs)) = true.
Proof.
  intros Hv Hb Hlen Hranks.
  destruct (valid_inv self Hv) as (Hk & Hsz & buf & Hb' & Hl & Hall).
  rewrite Hb in Hb'. injection Hb' as <-.
  apply (valid_intro _ (registers_max mine theirs)); try assumption; try reflexivity.
  - rewrite registers_max_length by lia. exact Hl.
  - apply registers_max_ranks; assumption.
Qed.

(** Inserting into the element-wise maximum is the element-wise maximum of
    the insertion. *)
Lemma add_hash_registers_max (self self' : HyperLogLog) (hash : Z) (mine theirs : list Z) :
  valid self = true -> 0 <= hash < 2 ^ 32 -> registers self = Some mine ->
  length theirs = length mine -> Forall (fun r => 0 <= r <= 32) theirs ->
  add_hash self hash = Returns self' tt ->
  exists mine',
    registers self' = Some mine' /\ length mine' = length mine /\
    add_hash (set_registers self (registers_max mine theirs)) hash
    = Returns (set_registers self' (registers_max mine' theirs)) tt.
Proof.
  intros Hv Hh Hb Hlen Hranks Hadd.
  pose proof (merged_valid self mine theirs Hv Hb Hlen Hranks) as Hvm.
  rewrite (add_hash_closed self hash mine) in Hadd by assumption.
  rewrite (add_hash_closed _ hash (registers_max mine theirs)) by (try assumption; reflexivity).
  rewrite add_index_set_registers, add_rank_set_registers, set_registers_twice.
  change (size (set_registers self (registers_max mine theirs))) with (size self).
  destruct (add_index self hash <? size self); [|discriminate].
  injection Hadd as <-.
  eexists. split; [reflexivity|]. split; [apply length_alter|].
  rewrite set_registers_twice, registers_max_alter. reflexivity.
Qed.

Section Union.

Variable hashfn : list Byte.byte -> Z -> Z.
Hypothesis hashfn_in_range : forall key sd, U32.in_range (hashfn key sd).

Lemma add_all_registers_max (items : list (list Byte.byte)) :
  forall (self self' : HyperLogLog) (mine theirs : list Z),
    valid self = true -> registers self = Some mine ->
    length theirs = length mine -> Forall (fun r => 0 <= r <= 32) theirs ->
    add_all hashfn self items = Returns self' tt ->
    exists mine',
      registers self' = Some mine' /\
      add_all hashfn (set_registers self (registers_max mine theirs)) items
      = Returns (set_registers self' (registers_max mine' theirs)) tt.
Proof.
  induction items as [|d items IH]; intros self self' mine theirs Hv Hb Hlen Hranks Hrun;
    cbn [add_all] in *.
  - injection Hrun as <-. eauto.
  - destruct (HyperLogLog_add hashfn self d) as [s1 []| |] eqn:Hadd; simpl in Hrun;
      try discriminate.
    unfold HyperLogLog_add in *.
    pose proof (hashfn_u32 hashfn hashfn_in_range d (seed self)) as Hh.
    destruct (add_hash_registers_max self s1 _ mine theirs Hv Hh Hb Hlen Hranks Hadd)
      as (mine1 & Hb1 & Hlen1 & Hstep).
    destruct (add_hash_valid self s1 _ Hv Hh Hadd) as (Hv1 & _).
    destruct (IH s1 self' mine1 theirs Hv1 Hb1 ltac:(congruence) Hranks Hrun)
      as (mine' & Hb' & Hrest).
    exists mine'. split; [exact Hb'|].
    change (seed (set_registers self (registers_max mine theirs))) with (seed self).
    rewrite Hstep. exact Hrest.
Qed.

(** X7: merge computes the union, when the runtime takes the bytearray's
    buffer from malloc (k >= 9 under the default allocator).  If A and B were
    built from fresh estimators of the same k and seed by inserting the lists
    l1 and l2, then merging B into A leaves in A exactly the state that
    inserting l1 ++ l2 into a fresh estimator produces. *)
Theorem merge_is_union (alloc : Z -> bool) (heap : gmap addr HyperLogLog) (a b : addr)
    (A B : HyperLogLog) (kk sd : Z) (l1 l2 : list (list Byte.byte)) :
  2 <= kk <= 16 -> alloc (2 ^ kk) = true ->
  add_all hashfn (fresh_estimator kk sd) l1 = Returns A tt ->
  add_all hashfn (fresh_estimator kk sd) l2 = Returns B tt ->
  heap !! a = Some A -> heap !! b = Some B ->
  exists U,
    add_all hashfn (fresh_estimator kk sd) (l1 ++ l2) = Returns U tt /\
    HyperLogLog_merge alloc a b heap = Returns (<[a := U]> heap) tt.
Proof.
  intros Hk Halloc HA HB Ha Hb.
  pose proof (fresh_estimator_valid kk sd Hk) as Hv0.
  destruct (add_all_valid hashfn hashfn_in_range l1 _ _ Hv0 HA) as (HvA & HkA & HsA & HzA).
  destruct (add_all_valid hashfn hashfn_in_range l2 _ _ Hv0 HB) as (HvB & HkB & HsB & HzB).
  destruct (valid_inv A HvA) as (_ & _ & ra & Hra & HlenA & HallA).
  destruct (valid_inv B HvB) as (_ & _ & rb & Hrb & HlenB & HallB).
  assert (0 < 2 ^ kk) as Hpos by (apply Z.pow_pos_nonneg; lia).
  simpl in HzA, HzB.
  destruct (add_all_registers_max l2 (fresh_estimator kk sd) B
              (replicate (Z.to_nat (2 ^ kk)) 0) ra Hv0 eq_refl)
    as (rb' & Hrb' & Hrun); [rewrite length_replicate; lia | exact HallA | exact HB |].
  rewrite Hrb in Hrb'. injection Hrb' as <-.
  rewrite registers_max_zeros in Hrun by (try assumption; lia).
  assert (set_registers (fresh_estimator kk sd) ra = A) as HA'.
  { destruct A as [kA sA zA regsA]. simpl in *. subst. reflexivity. }
  rewrite HA' in Hrun.
  assert (set_registers B (registers_max rb ra) = set_registers A (registers_max ra rb)) as HU.
  { destruct A as [kA sA zA regsA], B as [kB sB zB regsB]. simpl in *. subst.
    unfold set_registers. simpl. rewrite registers_max_comm. reflexivity. }
  exists (set_registers A (registers_max ra rb)). split.
  - rewrite add_all_app, HA. simpl. rewrite Hrun, HU. reflexivity.
  - apply (merge_same_size alloc heap a b A B ra rb); try assumption; [congruence|].
    rewrite HzB. exact Halloc.
Qed.

End Union.

Lemma merge_is_union_witness :
  exists U,
    add_all Murmur3.MurmurHash3_x86_32 (fresh_estimator 9 314) ([bytes_of ""] ++ [bytes_of "b"])
    = Returns U tt /\
    HyperLogLog_merge pymalloc_allocator 1%nat 2%nat
      {[ 1%nat := inserted_512 [bytes_of ""]; 2%nat := inserted_512 [bytes_of "b"] ]}
    = Returns
        (<[1%nat := U]>
           {[ 1%nat := inserted_512 [bytes_of ""]; 2%nat := inserted_512 [bytes_of "b"] ]}) tt.
Proof.
  apply (merge_is_union Murmur3.MurmurHash3_x86_32 MurmurHash3_x86_32_in_range
           pymalloc_allocator _ 1%nat 2%nat
           (inserted_512 [bytes_of ""]) (inserted_512 [bytes_of "b"])
           9 314 [bytes_of ""] [bytes_of "b"]).
  - lia.
  - reflexivity.
  - vm_compute. reflexivity.
  - vm_compute. reflexivity.
  - reflexivity.
  - reflexivity.
Defined.

(** ** Merge: aliasing, neutral element, invariants, association *)

(** X8: merging a valid estimator with itself, when the runtime takes the
    bytearray's buffer from malloc (k >= 9 under the default allocator),
    returns with the store unchanged. *)
Theorem merge_with_itself (alloc : Z -> bool) (heap : gmap addr HyperLogLog) (a : addr)
    (A : HyperLogLog) :
  heap !! a = Some A -> valid A = true -> alloc (size A) = true ->
  HyperLogLog_merge alloc a a heap = Returns heap tt.
Proof.
  intros Ha Hv Halloc. destruct (valid_inv A Hv) as (_ & _ & ra & Hra & _ & _).
  rewrite (merge_same_size alloc heap a a A A ra ra) by (try assumption; reflexivity).
  rewrite registers_max_self, set_registers_same by exact Hra.
  rewrite insert_id by exact Ha. reflexivity.
Qed.

Lemma merge_with_itself_witness :
  HyperLogLog_merge pymalloc_allocator 1%nat 1%nat heap_512 = Returns heap_512 tt.
Proof.
  apply (merge_with_itself pymalloc_allocator heap_512 1%nat
           (estimator_512 314 [0; 3; 1; 0])); vm_compute; reflexivity.
Defined.

(** X9: a freshly constructed estimator is neutral for merge, when the
    runtime takes the bytearray's buffer from malloc (k >= 9 under the default
    allocator).  Merging it into a valid estimator of the same size leaves the
    store unchanged, and merging a valid estimator into it gives it that
    estimator's registers. *)
Theorem merge_fresh_neutral (alloc : Z -> bool) (heap : gmap addr HyperLogLog) (a z : addr)
    (A : HyperLogLog) (ra : list Z) (sd : Z) :
  heap !! a = Some A -> heap !! z = Some (fresh_estimator (k A) sd) ->
  valid A = true -> registers A = Some ra -> alloc (size A) = true ->
  HyperLogLog_merge alloc a z heap = Returns heap tt /\
  HyperLogLog_merge alloc z a heap
  = Returns (<[z := set_registers (fresh_estimator (k A) sd) ra]> heap) tt.
Proof.
  intros Ha Hz Hv Hra Halloc.
  destruct (valid_inv A Hv) as (Hk & Hsz & ra' & Hra' & Hlen & Hall).
  rewrite Hra in Hra'. injection Hra' as <-.
  pose proof (fresh_estimator_valid (k A) sd Hk) as Hvz.
  assert (0 < 2 ^ k A) as Hpos by (apply Z.pow_pos_nonneg; lia).
  split.
  - rewrite (merge_same_size alloc heap a z A (fresh_estimator (k A) sd) ra
               (replicate (Z.to_nat (2 ^ k A)) 0))
      by (try assumption; try reflexivity; simpl; try lia; rewrite <- Hsz; exact Halloc).
    rewrite registers_max_comm, registers_max_zeros by (try assumption; lia).
    rewrite set_registers_same by exact Hra.
    rewrite insert_id by exact Ha. reflexivity.
  - rewrite (merge_same_size alloc heap z a (fresh_estimator (k A) sd) A
               (replicate (Z.to_nat (2 ^ k A)) 0) ra)
      by (try assumption; try reflexivity; simpl; lia).
    rewrite registers_max_zeros by (try assumption; lia). reflexivity.
Qed.

Lemma merge_fresh_neutral_witness :
  HyperLogLog_merge pymalloc_allocator 1%nat 2%nat
    {[ 1%nat := estimator_512 314 [0; 3; 1; 0]; 2%nat := fresh_estimator 9 7 ]}
  = Returns {[ 1%nat := estimator_512 314 [0; 3; 1; 0]; 2%nat := fresh_estimator 9 7 ]} tt.
Proof.
  refine (proj1 (merge_fresh_neutral pymalloc_allocator _ 1%nat 2%nat
                   (estimator_512 314 [0; 3; 1; 0])
                   ([0; 3; 1; 0] ++ replicate 508 0) 7 _ _ _ _ _)); vm_compute; reflexivity.
Defined.

(** X10: a merge that returns keeps k, seed and size of self, keeps self
    valid, changes no other object, and leaves every register of self at
    least as large as it was and as the peer's register. *)
Theorem merge_keeps_and_grows (alloc : Z -> bool) (heap heap' : gmap addr HyperLogLog)
    (self hll : addr) (me peer : HyperLogLog) :
  heap !! self = Some me -> heap !! hll = Some peer ->
  valid me = true -> valid peer = true ->
  HyperLogLog_merge alloc self hll heap = Returns heap' tt ->
  exists me' mine theirs merged,
    heap' = <[self := me']> heap /\
    k me' = k me /\ seed me' = seed me /\ size me' = size me /\ valid me' = true /\
    registers me = Some mine /\ registers peer = Some theirs /\
    registers me' = Some merged /\ length merged = length mine /\
    forall (i : nat) (x y : Z),
      mine !! i = Some x -> theirs !! i = Some y ->
      exists m, merged !! i = Some m /\ x <= m /\ y <= m.
Proof.
  intros Hself Hhll Hme Hpeer Hrun.
  destruct (valid_inv me Hme) as (_ & _ & mine & Hmine & Hl1 & _).
  destruct (valid_inv peer Hpeer) as (_ & _ & theirs & Htheirs & Hl2 & _).
  destruct (Z.eq_dec (size peer) (size me)) as [Hsz|Hsz].
  - destruct (alloc (size peer)) eqn:Halloc.
    2: { rewrite (merge_frees_foreign_buffer alloc heap self hll me peer) in Hrun
           by assumption.
         discriminate. }
    rewrite (merge_same_size alloc heap self hll me peer mine theirs) in Hrun by assumption.
    injection Hrun as <-.
    exists (set_registers me (registers_max mine theirs)), mine, theirs,
           (registers_max mine theirs).
    repeat (split; [reflexivity|]).
    split; [eapply merge_valid; eassumption|].
    repeat (split; [assumption|]).
    split; [reflexivity|].
    split; [apply registers_max_length; lia|].
    intros i x y Hx Hy. exists (Z.max x y).
    split; [apply registers_max_lookup; assumption | lia].
  - rewrite (merge_size_mismatch alloc heap self hll me peer) in Hrun by assumption.
    discriminate.
Qed.

Lemma merge_keeps_and_grows_witness :
  exists me',
    <[1%nat := estimator_512 314 [2; 3; 1; 0]]> heap_512 = <[1%nat := me']> heap_512 /\
    k me' = 9 /\ seed me' = 314 /\ size me' = 512 /\ valid me' = true.
Proof.
  assert (HyperLogLog_merge pymalloc_allocator 1%nat 2%nat heap_512
          = Returns (<[1%nat := estimator_512 314 [2; 3; 1; 0]]> heap_512) tt) as Hrun
    by (vm_compute; reflexivity).
  destruct (merge_keeps_and_grows pymalloc_allocator heap_512
              (<[1%nat := estimator_512 314 [2; 3; 1; 0]]> heap_512) 1%nat 2%nat
              (estimator_512 314 [0; 3; 1; 0]) (estimator_512 314 [2; 1; 0; 0])
              eq_refl eq_refl eq_refl eq_refl Hrun)
    as (me' & mine & theirs & merged & Hheap & Hk & Hseed & Hsize & Hvalid & _).
  exists me'. repeat split; assumption.
Defined.

Lemma registers_max_assoc (a b c : list Z) :
  registers_max (registers_max a b) c = registers_max a (registers_max b c).
Proof.
  unfold registers_max. revert b c.
  induction a as [|x a IH]; intros [|y b] [|z c]; simpl; try reflexivity.
  rewrite IH, Z.max_assoc. reflexivity.
Qed.

(** X11: merge associates.  Over three valid estimators of one size at
    distinct addresses, merging b and then c into a gives a the registers it
    gets when c is first merged into b and b is then merged into a. *)
Theorem merge_associative (alloc : Z -> bool) (heap : gmap addr HyperLogLog) (a b c : addr)
    (A B C : HyperLogLog) :
  a <> b -> a <> c -> b <> c ->
  heap !! a = Some A -> heap !! b = Some B -> heap !! c = Some C ->
  valid A = true -> valid B = true -> valid C = true ->
  size B = size A -> size C = size A -> alloc (size A) = true ->
  exists h1 h2 h3 h4 final,
    HyperLogLog_merge alloc a b heap = Returns h1 tt /\
    HyperLogLog_merge alloc a c h1 = Returns h2 tt /\
    HyperLogLog_merge alloc b c heap = Returns h3 tt /\
    HyperLogLog_merge alloc a b h3 = Returns h4 tt /\
    (registers <$> h2 !! a) = Some (Some final) /\
    (registers <$> h4 !! a) = Some (Some final).
Proof.
  intros Hab Hac Hbc Ha Hb Hc HvA HvB HvC HszB HszC Halloc.
  assert (alloc (size B) = true) as HallocB by (rewrite HszB; exact Halloc).
  assert (alloc (size C) = true) as HallocC by (rewrite HszC; exact Halloc).
  destruct (valid_inv A HvA) as (_ & _ & ra & Hra & _ & _).
  destruct (valid_inv B HvB) as (_ & _ & rb & Hrb & _ & _).
  destruct (valid_inv C HvC) as (_ & _ & rc & Hrc & _ & _).
  pose proof (merge_valid A B ra rb HvA HvB HszB Hra Hrb) as HvAB.
  pose proof (merge_valid B C rb rc HvB HvC ltac:(congruence) Hrb Hrc) as HvBC.
  eexists _, _, _, _, (registers_max ra (registers_max rb rc)).
  split; [apply (merge_same_size alloc heap a b A B ra rb); assumption|].
  split.
  { apply (merge_same_size alloc _ a c (set_registers A (registers_max ra rb)) C
             (registers_max ra rb) rc); try assumption; try reflexivity.
    - apply lookup_insert_eq.
    - rewrite lookup_insert_ne by congruence. exact Hc. }
  split; [apply (merge_same_size alloc heap b c B C rb rc); try assumption; congruence|].
  split.
  { apply (merge_same_size alloc _ a b A (set_registers B (registers_max rb rc))
             ra (registers_max rb rc)); try assumption; try reflexivity.
    - rewrite lookup_insert_ne by congruence. exact Ha.
    - apply lookup_insert_eq. }
  split.
  - rewrite lookup_insert_eq. simpl. rewrite registers_max_assoc. reflexivity.
  - rewrite lookup_insert_eq. reflexivity.
Qed.

Lemma merge_associative_witness :
  exists h1 h2 h3 h4 final,
    HyperLogLog_merge pymalloc_allocator 1%nat 2%nat heap_512 = Returns h1 tt /\
    HyperLogLog_merge pymalloc_allocator 1%nat 3%nat h1 = Returns h2 tt /\
    HyperLogLog_merge pymalloc_allocator 2%nat 3%nat heap_512 = Returns h3 tt /\
    HyperLogLog_merge pymalloc_allocator 1%nat 2%nat h3 = Returns h4 tt /\
    (registers <$> h2 !! 1%nat) = Some (Some final) /\
    (registers <$> h4 !! 1%nat) = Some (Some final).
Proof.
  apply (merge_associative pymalloc_allocator heap_512 1%nat 2%nat 3%nat
           (estimator_512 314 [0; 3; 1; 0]) (estimator_512 314 [2; 1; 0; 0])
           (estimator_512 314 [0; 0; 5; 1]));
    try (vm_compute; reflexivity); lia.
Defined.

(** ** Direct register writes: outcomes, sequences, replay *)

(** X12: on a valid estimator and unsigned 32-bit arguments, set_register
    has exactly four outcomes: IndexError when index > size; otherwise
    ValueError when rank > 32; otherwise a write outside the buffer when
    index = size; otherwise it returns.  A call that raises leaves the
    estimator as it was. *)
Theorem set_register_outcome (self : HyperLogLog) (index rank : Z) :
  valid self = true -> U32.in_range index -> U32.in_range rank ->
  (size self < index <->
   HyperLogLog_set_register self index rank
   = Raises self (IndexError "Index greater than the number of registers.")) /\
  (index <= size self /\ 32 < rank <->
   HyperLogLog_set_register self index rank
   = Raises self (ValueError "Rank is greater than the maximum possible rank.")) /\
  (index = size self /\ rank <= 32 <->
   HyperLogLog_set_register self index rank = Undefined) /\
  (index < size self /\ rank <= 32 <->
   exists self', HyperLogLog_set_register self index rank = Returns self' tt).
Proof.
  unfold U32.in_range, U32.modulus. intros Hv Hi Hr.
  destruct (Z_lt_dec (size self) index) as [Habove|Hnot].
  { rewrite set_register_index_above_size by lia.
    repeat apply conj; intros Hcase; try reflexivity; try lia; try discriminate.
    destruct Hcase as [self' Hs]. discriminate. }
  destruct (Z_lt_dec 32 rank) as [Hbig|Hsmall].
  { rewrite set_register_rank_above_32 by lia.
    repeat apply conj; intros Hcase; try reflexivity; try lia; try discriminate.
    destruct Hcase as [self' Hs]. discriminate. }
  destruct (Z.eq_dec index (size self)) as [->|Hne].
  { rewrite set_register_at_size_undefined by (try assumption; lia).
    repeat apply conj; intros Hcase; try reflexivity; try lia; try discriminate.
    destruct Hcase as [self' Hs]. discriminate. }
  destruct (set_register_in_range self index rank Hv ltac:(lia) ltac:(lia))
    as (buf & _ & -> & _).
  repeat apply conj; intros Hcase; try reflexivity; try lia; try discriminate.
  eauto.
Qed.

Lemma set_register_outcome_witness :
  4 = size (fresh_estimator 2 314) /\ 7 <= 32 <->
  HyperLogLog_set_register (fresh_estimator 2 314) 4 7 = Undefined.
Proof.
  refine (proj1 (proj2 (proj2
            (set_register_outcome (fresh_estimator 2 314) 4 7 _ _ _)))).
  - reflexivity.
  - unfold U32.in_range, U32.modulus. lia.
  - unfold U32.in_range, U32.modulus. lia.
Defined.

Lemma set_register_returns (self : HyperLogLog) (buf : list Z) (index rank : Z) :
  valid self = true -> registers self = Some buf ->
  0 <= index < size self -> 0 <= rank <= 32 ->
  HyperLogLog_set_register self index rank
  = Returns (set_registers self (<[Z.to_nat index := rank]> buf)) tt /\
  valid (set_registers self (<[Z.to_nat index := rank]> buf)) = true.
Proof.
  intros Hv Hb Hi Hr.
  destruct (set_register_in_range self index rank Hv Hi Hr)
    as (buf' & Hb' & Hset & _ & _ & _ & Hv').
  rewrite Hb in Hb'. injection Hb' as <-. split; assumption.
Qed.

(** X13: set_register overwrites.  On a valid estimator, with indices below
    size and ranks of at most 32, two writes to the same register leave the
    second rank, whether larger or smaller than the first, and two writes to
    different registers give the same state in either order. *)
Theorem set_register_twice_spec (self : HyperLogLog) (i j r1 r2 : Z) :
  valid self = true -> 0 <= i < size self -> 0 <= j < size self ->
  0 <= r1 <= 32 -> 0 <= r2 <= 32 ->
  set_register_twice self i r1 i r2 = HyperLogLog_set_register self i r2 /\
  (i <> j -> set_register_twice self i r1 j r2 = set_register_twice self j r2 i r1).
Proof.
  intros Hv Hi Hj Hr1 Hr2.
  destruct (valid_inv self Hv) as (_ & _ & buf & Hb & Hlen & _).
  assert (forall a b ra rb : Z,
             0 <= a < size self -> 0 <= b < size self -> 0 <= ra <= 32 -> 0 <= rb <= 32 ->
             set_register_twice self a ra b rb
             = Returns (set_registers self
                          (<[Z.to_nat b := rb]> (<[Z.to_nat a := ra]> buf))) tt) as Htwice.
  { intros a b ra rb Ha Hb' Hra Hrb. unfold set_register_twice.
    destruct (set_register_returns self buf a ra Hv Hb Ha Hra) as [-> Hv1]. simpl.
    destruct (set_register_returns _ (<[Z.to_nat a := ra]> buf) b rb Hv1 eq_refl Hb' Hrb)
      as [-> _].
    reflexivity. }
  split.
  - rewrite Htwice by assumption.
    destruct (set_register_returns self buf i r2 Hv Hb Hi Hr2) as [-> _].
    rewrite list_insert_insert_eq. reflexivity.
  - intros Hne. rewrite !Htwice by assumption.
    rewrite list_insert_insert_ne by lia. reflexivity.
Qed.

Lemma set_register_twice_spec_witness :
  set_register_twice (fresh_estimator 2 314) 1 9 1 3
  = HyperLogLog_set_register (fresh_estimator 2 314) 1 3.
Proof.
  refine (proj1 (set_register_twice_spec (fresh_estimator 2 314) 1 2 9 3 _ _ _ _ _));
    try reflexivity; simpl; lia.
Defined.

Lemma replay_step_returns (snapshot : list Z) (i : nat) (self : HyperLogLog)
    (buf : list Z) (rank : Z) :
  valid self = true -> registers self = Some buf -> (i < length buf)%nat ->
  snapshot !! i = Some rank -> 0 <= rank <= 32 ->
  replay_step snapshot (Z.of_nat i) self = Some (set_registers self (<[i := rank]> buf)) /\
  valid (set_registers self (<[i := rank]> buf)) = true.
Proof.
  intros Hv Hb Hi Hrank Hr.
  destruct (valid_inv self Hv) as (_ & _ & buf' & Hb' & Hlen & _).
  rewrite Hb in Hb'. injection Hb' as <-.
  destruct (set_register_returns self buf (Z.of_nat i) rank Hv Hb ltac:(lia) Hr)
    as [Hset Hv'].
  rewrite Nat2Z.id in Hset, Hv'.
  unfold replay_step. rewrite Nat2Z.id, Hrank, Hset. split; [reflexivity | exact Hv'].
Qed.

Lemma replay_loop_cells (snapshot : list Z) :
  Forall (fun r => 0 <= r <= 32) snapshot ->
  forall (n i : nat) (self : HyperLogLog) (buf : list Z),
    valid self = true -> registers self = Some buf ->
    length buf = length snapshot -> (i + n <= length buf)%nat ->
    exists buf',
      for_loop n (Z.of_nat i) (replay_step snapshot) self = Some (set_registers self buf') /\
      forall j : nat,
        buf' !! j = if bool_decide (i <= j < i + n)%nat then snapshot !! j else buf !! j.
Proof.
  intros Hranks. induction n as [|n IH]; intros i self buf Hv Hb Hlen Hbound.
  - exists buf. simpl. rewrite set_registers_same by exact Hb. split; [reflexivity|].
    intros j. rewrite bool_decide_eq_false_2 by lia. reflexivity.
  - destruct (lookup_lt_is_Some_2 snapshot i) as [rank Hrank]; [lia|].
    assert (0 <= rank <= 32) as Hr.
    { rewrite Forall_forall in Hranks. apply Hranks.
      eapply list_elem_of_lookup_2. exact Hrank. }
    destruct (replay_step_returns snapshot i self buf rank Hv Hb ltac:(lia) Hrank Hr)
      as [Hstep Hv1].
    simpl. rewrite Hstep.
    destruct (IH (S i) _ (<[i := rank]> buf) Hv1 eq_refl) as (buf' & Hloop & Hcells).
    { rewrite length_insert. exact Hlen. }
    { rewrite length_insert. lia. }
    exists buf'. split.
    + replace (Z.of_nat i + 1) with (Z.of_nat (S i)) by lia. rewrite Hloop. reflexivity.
    + intros j. rewrite Hcells.
      destruct (decide (j = i)) as [->|Hne].
      * rewrite bool_decide_eq_false_2, bool_decide_eq_true_2 by lia.
        rewrite list_lookup_insert_eq by lia. symmetry. exact Hrank.
      * rewrite list_lookup_insert_ne by congruence.
        destruct (decide (i <= j < i + S n)%nat) as [Hin|Hout].
        -- rewrite !bool_decide_eq_true_2 by lia. reflexivity.
        -- rewrite !bool_decide_eq_false_2 by lia. reflexivity.
Qed.

(** X14: a registers() snapshot can be restored with set_register.  Replaying
    the snapshot of a valid estimator, cell by cell, into any valid estimator
    of the same size returns, and registers() of the result is the snapshot. *)
Theorem replay_registers_round_trip (source target : HyperLogLog) (snapshot : list Z) :
  valid source = true -> valid target = true -> size target = size source ->
  HyperLogLog_registers source = Some snapshot ->
  exists restored,
    replay_registers target snapshot = Some restored /\
    HyperLogLog_registers restored = Some snapshot /\
    valid restored = true /\
    k restored = k target /\ seed restored = seed target.
Proof.
  intros Hvs Hvt Hsz Hsnap.
  destruct (valid_inv source Hvs) as (_ & _ & src & Hsrc & Hlsrc & Hranks).
  destruct (valid_inv target Hvt) as (Hk & Hsize & buf & Hb & Hlen & _).
  rewrite (valid_registers_copy source src Hvs Hsrc) in Hsnap. injection Hsnap as <-.
  destruct (replay_loop_cells src Hranks (length src) 0 target buf Hvt Hb)
    as (buf' & Hloop & Hcells); [lia | lia |].
  assert (buf' = src) as ->.
  { apply list_eq. intros j. rewrite Hcells.
    destruct (decide (j < length src)%nat) as [Hin|Hout].
    - rewrite bool_decide_eq_true_2 by lia. reflexivity.
    - rewrite bool_decide_eq_false_2 by lia.
      rewrite !lookup_ge_None_2 by lia. reflexivity. }
  assert (valid (set_registers target src) = true) as Hv'.
  { apply (valid_intro _ src); try assumption; try reflexivity. simpl. lia. }
  exists (set_registers target src).
  split; [exact Hloop|]. split; [|split; [exact Hv' | split; reflexivity]].
  apply valid_registers_copy; [exact Hv' | reflexivity].
Qed.

Lemma replay_registers_round_trip_witness :
  exists restored,
    replay_registers (fresh_estimator 2 7) [0; 3; 1; 0] = Some restored /\
    HyperLogLog_registers restored = Some [0; 3; 1; 0] /\
    valid restored = true /\
    k restored = k (fresh_estimator 2 7) /\ seed restored = seed (fresh_estimator 2 7).
Proof.
  apply (replay_registers_round_trip
           (set_registers (fresh_estimator 2 314) [0; 3; 1; 0]) (fresh_estimator 2 7)
           [0; 3; 1; 0]); reflexivity.
Defined.

(** ** Initialisation on an arbitrary object *)

(** X15: HyperLogLog_init on any object, initialised or not.  It stores the
    low 16 bits of the parsed k, as a signed short, in the field k.  When that
    value is in [2, 16] it discards the old size and registers and leaves a
    zeroed estimator of 2^k registers, keeping the old seed when none is
    given.  When it is outside [2, 16] the call raises ValueError but has
    already stored k: size and registers stay as they were, and the object
    left behind is not valid. *)
Theorem init_on_any_object (self : HyperLogLog) (kk : Z) (seed_arg : option Z) :
  (2 <= to_short kk <= 16 ->
   HyperLogLog_init self kk seed_arg
   = Returns (fresh_estimator (to_short kk) (default (seed self) seed_arg)) tt) /\
  (to_short kk < 2 \/ 16 < to_short kk ->
   HyperLogLog_init self kk seed_arg
   = Raises (mkHyperLogLog (to_short kk) (default (seed self) seed_arg)
               (size self) (registers self))
       (ValueError "Number of registers must be in the range [2^2, 2^16]") /\
   valid (mkHyperLogLog (to_short kk) (default (seed self) seed_arg)
            (size self) (registers self))
   = false) /\
  (-32768 <= kk <= 32767 -> to_short kk = kk).
Proof.
  split; [|split; [|apply to_short_small]];
    intros Hk; unfold HyperLogLog_init; cbn [k seed size registers].
  - replace (to_short kk <? 2) with false by lia.
    replace (to_short kk >? 16) with false by lia.
    cbn [orb]. rewrite shiftl_1_u32 by lia. reflexivity.
  - split.
    + destruct (Z.ltb_spec (to_short kk) 2); [reflexivity|].
      replace (to_short kk >? 16) with true by lia. reflexivity.
    + unfold valid. cbn [k seed size registers].
      destruct (Z.leb_spec 2 (to_short kk)); [|reflexivity].
      replace (to_short kk <=? 16) with false by lia. reflexivity.
Qed.

(** X16: the object that a failed construction leaves has no buffer.
    Construction fails when the low 16 bits of the parsed k, as a signed
    short, are below 2 or above 16.  On the object left behind add and
    set_register(0, rank) dereference the null pointer, and cardinality, whose
    loops run zero times, returns NaN. *)
Theorem failed_construct_unusable (kk : Z) (seed_arg : option Z) :
  to_short kk < 2 \/ 16 < to_short kk ->
  exists st msg,
    construct kk seed_arg = Raises st (ValueError msg) /\
    registers st = None /\ size st = 0 /\
    (forall (hashfn : list Byte.byte -> Z -> Z) (data : list Byte.byte),
       HyperLogLog_add hashfn st data = Undefined) /\
    (forall rank, 0 <= rank <= 32 -> HyperLogLog_set_register st 0 rank = Undefined) /\
    (forall log : float -> float,
       exists v, HyperLogLog_cardinality log st = Returns st v /\ PrimFloat.is_nan v = true).
Proof.
  intros Hk. rewrite construct_out_of_range by exact Hk.
  eexists _, _. split; [reflexivity|].
  split; [reflexivity|]. split; [reflexivity|]. split; [|split].
  - intros hashfn data. reflexivity.
  - intros rank Hr. unfold HyperLogLog_set_register. cbn [size].
    replace (rank >? 32) with false by lia. replace (rank <? 0) with false by lia.
    reflexivity.
  - intros log. eexists. split; [reflexivity|]. vm_compute. reflexivity.
Qed.

Lemma failed_construct_unusable_witness :
  exists st msg,
    construct 17 None = Raises st (ValueError msg) /\
    registers st = None /\ size st = 0 /\
    (forall (hashfn : list Byte.byte -> Z -> Z) (data : list Byte.byte),
       HyperLogLog_add hashfn st data = Undefined) /\
    (forall rank, 0 <= rank <= 32 -> HyperLogLog_set_register st 0 rank = Undefined) /\
    (forall log : float -> float,
       exists v, HyperLogLog_cardinality log st = Returns st v /\ PrimFloat.is_nan v = true).
Proof. apply (failed_construct_unusable 17 None). vm_compute. right. reflexivity. Defined.

(** ** Estimation on every valid estimator *)

Lemma cardinality_estimate_closed (log : float -> float) (self : HyperLogLog)
    (buf : list Z) (raw_estimate : float) :
  registers self = Some buf ->
  cardinality_estimate log self raw_estimate
  = (if (1.0 / 30.0) * two_32 <? raw_estimate
     then neg_two_32 * log (1.0 - raw_estimate / two_32)
     else raw_estimate)%float.
Proof.
  intros Hb. unfold cardinality_estimate.
  rewrite (cardinality_zeros_allocated self buf Hb). cbn [Z.eqb negb].
  assert ((0 <=? (1.0 / 30.0) * two_32)%float = true) as Hzero by (vm_compute; reflexivity).
  destruct (raw_estimate <=? 2.5 * to_double (size self))%float.
  - destruct (raw_estimate <=? 1.0 / 30.0 * two_32)%float; reflexivity.
  - rewrite Hzero. reflexivity.
Qed.

(** X17: on every valid estimator cardinality returns and leaves the
    estimator unchanged, reading only inside the buffer; the value is the raw
    estimate alpha * (1 / sum) * size * size, replaced by the large-range
    correction when it exceeds 2^32 / 30.  The small-range branch has no
    effect on the value. *)
Theorem cardinality_closed_form (log : float -> float) (self : HyperLogLog) :
  valid self = true ->
  exists sum,
    cardinality_sum self = Some sum /\
    HyperLogLog_cardinality log self
    = Returns self
        (if (1.0 / 30.0) * two_32 <? cardinality_raw_estimate self sum
         then neg_two_32 * log (1.0 - cardinality_raw_estimate self sum / two_32)
         else cardinality_raw_estimate self sum)%float.
Proof.
  intros Hv. destruct (cardinality_sum_defined self Hv) as [sum Hsum].
  destruct (valid_inv self Hv) as (_ & _ & buf & Hb & _ & _).
  exists sum. split; [exact Hsum|].
  unfold HyperLogLog_cardinality. rewrite Hsum.
  rewrite (cardinality_estimate_closed log self buf _ Hb). reflexivity.
Qed.

Lemma cardinality_closed_form_witness :
  exists sum,
    cardinality_sum example_estimator = Some sum /\
    HyperLogLog_cardinality (fun x => x) example_estimator
    = Returns example_estimator
        (if (1.0 / 30.0) * two_32 <? cardinality_raw_estimate example_estimator sum
         then neg_two_32 * (1.0 - cardinality_raw_estimate example_estimator sum / two_32)
         else cardinality_raw_estimate example_estimator sum)%float.
Proof.
  apply (cardinality_closed_form (fun x => x) example_estimator).
  reflexivity.
Defined.

(** ** The population count, on every 32-bit word *)

Ltac lia_div := Z.to_euclidean_division_equations; lia.


Lemma count_up_In (n : nat) : forall start v : Z,
  start <= v < start + Z.of_nat n -> In v (count_up n start).
Proof.
  induction n as [|n IH]; intros start v Hv; [lia|].
  simpl. destruct (Z.eq_dec start v) as [->|Hne]; [left; reflexivity|].
  right. apply IH. lia.
Qed.

Lemma lane_check_all : forallb lane_check (count_up (Z.to_nat 65536) 0) = true.
Proof. vm_compute. reflexivity. Qed.

Lemma lane_facts (v : Z) :
  0 <= v < 65536 ->
  0 <= lane_pairs v < 65536 /\
  0 <= lane_nibbles (lane_pairs v) <= 0x4444 /\
  lane_nibbles (lane_pairs v) mod 16 <= 4 /\
  0 <= lane_bytes (lane_nibbles (lane_pairs v)) /\
  lane_bytes (lane_nibbles (lane_pairs v)) mod 256 <= 8 /\
  lane_bytes (lane_nibbles (lane_pairs v)) / 256 <= 8 /\
  lane_bytes (lane_nibbles (lane_pairs v)) mod 256
  + lane_bytes (lane_nibbles (lane_pairs v)) / 256 = population_count 16 v.
Proof.
  intros Hv. pose proof lane_check_all as Hall.
  rewrite forallb_forall in Hall.
  specialize (Hall v (count_up_In (Z.to_nat 65536) 0 v ltac:(lia))).
  unfold lane_check in Hall. cbv zeta in Hall.
  repeat (apply andb_prop in Hall as [Hall ?]).
  repeat split; lia.
Qed.

(** Bit [i] of a word made of two 16-bit halves. *)
Lemma testbit_halves (lo hi i : Z) :
  0 <= lo < 65536 -> 0 <= i ->
  Z.testbit (lo + 65536 * hi) i = if i <? 16 then Z.testbit lo i else Z.testbit hi (i - 16).
Proof.
  intros Hlo Hi. change 65536 with (2 ^ 16) in *.
  destruct (Z.ltb_spec i 16) as [Hlt|Hge].
  - rewrite <- (Z.mod_pow2_bits_low (lo + 2 ^ 16 * hi) 16 i) by lia.
    rewrite (Z.mul_comm (2 ^ 16)), Z_mod_plus_full, Z.mod_small by lia. reflexivity.
  - replace i with ((i - 16) + 16) at 1 by lia.
    rewrite <- Z.div_pow2_bits by lia.
    rewrite (Z.mul_comm (2 ^ 16)), Z.div_add, Z.div_small by lia. reflexivity.
Qed.

Lemma testbit_above (m n i : Z) : 0 <= m < 2 ^ n -> 0 <= n <= i -> Z.testbit m i = false.
Proof.
  intros Hm Hi. rewrite <- (Z.mod_small m (2 ^ n)) by lia.
  apply Z.mod_pow2_bits_high. lia.
Qed.

Lemma land_below (a m n : Z) : 0 <= m < 2 ^ n -> 0 <= n -> 0 <= Z.land a m < 2 ^ n.
Proof.
  intros Hm Hn.
  assert (0 <= Z.land a m) as Hnn by (apply Z.land_nonneg; lia).
  split; [exact Hnn|].
  destruct (Z.eq_dec (Z.land a m) 0) as [->|Hnz]; [lia|].
  apply Z.log2_lt_pow2; [lia|].
  destruct (Z_lt_dec (Z.log2 (Z.land a m)) n) as [Hlt|Hge]; [exact Hlt|].
  assert (Z.testbit (Z.land a m) (Z.log2 (Z.land a m)) = true) as Hbit
    by (apply Z.bit_log2; lia).
  rewrite Z.land_spec, (testbit_above m n) in Hbit by lia.
  rewrite andb_false_r in Hbit. discriminate.
Qed.

(** A shift and a mask that repeats in both halves act on each half alone,
    when the mask clears the bits that the shift brings in from above. *)
Lemma land_shiftr_halves (lo hi s m : Z) :
  0 <= lo < 65536 -> 0 <= hi < 65536 -> 0 <= s <= 16 -> 0 <= m < 2 ^ (16 - s) ->
  Z.land (Z.shiftr (lo + 65536 * hi) s) (m + 65536 * m)
  = Z.land (Z.shiftr lo s) m + 65536 * Z.land (Z.shiftr hi s) m.
Proof.
  intros Hlo Hhi Hs Hm.
  assert (2 ^ (16 - s) <= 2 ^ 16) as Hpow by (apply Z.pow_le_mono_r; lia).
  change (2 ^ 16) with 65536 in Hpow.
  pose proof (land_below (Z.shiftr lo s) m (16 - s) Hm ltac:(lia)) as Hl1.
  apply Z.bits_inj'. intros i Hi.
  rewrite Z.land_spec, Z.shiftr_spec by lia.
  rewrite !testbit_halves by lia.
  rewrite !Z.land_spec, !Z.shiftr_spec by lia.
  destruct (Z.ltb_spec i 16) as [Hi16|Hi16].
  - destruct (Z.ltb_spec (i + s) 16) as [His|His]; [reflexivity|].
    rewrite (testbit_above m (16 - s) i) by lia.
    rewrite !andb_false_r. reflexivity.
  - replace (i + s <? 16) with false by lia.
    rewrite ?Z.land_spec, ?Z.shiftr_spec by lia.
    replace (i + s - 16) with (i - 16 + s) by lia. reflexivity.
Qed.

Lemma land_low_bits (x m q : Z) : 0 <= q -> 0 <= m < 2 ^ q -> Z.land x m = Z.land (x mod 2 ^ q) m.
Proof.
  intros Hq Hm. apply Z.bits_inj'. intros i Hi. rewrite !Z.land_spec.
  destruct (Z_lt_dec i q) as [Hlt|Hge].
  - rewrite Z.mod_pow2_bits_low by lia. reflexivity.
  - rewrite (testbit_above m q i) by lia. rewrite !andb_false_r. reflexivity.
Qed.

Lemma ones_pairs_halves (lo hi : Z) :
  0 <= lo < 65536 -> 0 <= hi < 65536 ->
  ones_pairs (lo + 65536 * hi) = lane_pairs lo + 65536 * lane_pairs hi.
Proof.
  intros Hlo Hhi. unfold ones_pairs, U32.sub, U32.shr.
  change 0x55555555 with (0x5555 + 65536 * 0x5555).
  rewrite land_shiftr_halves by (try assumption; simpl; lia).
  pose proof (lane_facts lo Hlo) as (Ha & _). pose proof (lane_facts hi Hhi) as (Hb & _).
  unfold lane_pairs in *. rewrite wrap32_small by lia. lia.
Qed.

Lemma ones_nibbles_halves (a b : Z) :
  0 <= a < 65536 -> 0 <= b < 65536 ->
  0 <= lane_nibbles a < 65536 -> 0 <= lane_nibbles b < 65536 ->
  ones_nibbles (a + 65536 * b) = lane_nibbles a + 65536 * lane_nibbles b.
Proof.
  intros Ha Hb HA HB. unfold ones_nibbles, U32.add, U32.shr.
  change 0x33333333 with (0x3333 + 65536 * 0x3333).
  rewrite land_shiftr_halves by (try assumption; simpl; lia).
  rewrite <- (Z.shiftr_0_r (a + 65536 * b)).
  rewrite land_shiftr_halves by (try assumption; simpl; lia).
  rewrite !Z.shiftr_0_r.
  unfold lane_nibbles in *. rewrite wrap32_small by lia. lia.
Qed.

Lemma ones_bytes_halves (a b : Z) :
  0 <= a <= 0x4444 -> 0 <= b <= 0x4444 -> b mod 16 <= 4 ->
  ones_bytes (a + 65536 * b) = lane_bytes a + 65536 * lane_bytes b.
Proof.
  intros Ha Hb Hnib. unfold ones_bytes, lane_bytes, U32.add, U32.shr.
  rewrite !Z.shiftr_div_pow2 by lia. change (2 ^ 4) with 16.
  rewrite wrap32_small by (change (2 ^ 32) with 4294967296; lia_div).
  replace ((a + 65536 * b) / 16 + (a + 65536 * b))
    with ((a / 16 + a + 4096 * (b mod 16)) + 65536 * (b / 16 + b)) by lia_div.
  change 0x0F0F0F0F with (0x0F0F + 65536 * 0x0F0F).
  rewrite <- (Z.shiftr_0_r (a / 16 + a + 4096 * (b mod 16) + 65536 * (b / 16 + b))).
  rewrite land_shiftr_halves by (simpl; lia_div).
  rewrite !Z.shiftr_0_r.
  rewrite (land_low_bits (a / 16 + a + 4096 * (b mod 16)) 0x0F0F 12) by (simpl; lia).
  rewrite (land_low_bits (a / 16 + a) 0x0F0F 12) by (simpl; lia).
  change (2 ^ 12) with 4096.
  rewrite (Z.mul_comm 4096), Z_mod_plus_full. reflexivity.
Qed.

Lemma ones_fold_counts (c0 c1 d0 d1 : Z) :
  0 <= c0 <= 8 -> 0 <= c1 <= 8 -> 0 <= d0 <= 8 -> 0 <= d1 <= 8 ->
  ones_fold (c0 + 256 * c1 + 65536 * (d0 + 256 * d1)) = c0 + c1 + (d0 + d1).
Proof.
  intros Hc0 Hc1 Hd0 Hd1. unfold ones_fold, U32.add, U32.shr. cbv zeta.
  change 0x0000003F with (Z.ones 6). rewrite Z.land_ones by lia.
  rewrite !Z.shiftr_div_pow2 by lia.
  change (2 ^ 8) with 256. change (2 ^ 16) with 65536. change (2 ^ 6) with 64.
  assert ((c0 + 256 * c1 + 65536 * (d0 + 256 * d1)) / 256 = c1 + 256 * d0 + 65536 * d1)
    as -> by (symmetry; apply (Z.div_unique _ _ _ c0); lia).
  rewrite (wrap32_small (c0 + 256 * c1 + 65536 * (d0 + 256 * d1) + _)) by lia.
  assert ((c0 + 256 * c1 + 65536 * (d0 + 256 * d1) + (c1 + 256 * d0 + 65536 * d1)) / 65536
          = d0 + d1 + 256 * d1)
    as -> by (symmetry; apply (Z.div_unique _ _ _ (c0 + c1 + 256 * (c1 + d0))); lia).
  rewrite wrap32_small by lia.
  symmetry. apply (Z.mod_unique _ _ (4 * (c1 + d0 + d1) + 1024 * (d0 + d1) + 262144 * d1));
    lia.
Qed.

Lemma ones_fold_bytes (c d : Z) :
  0 <= c -> c mod 256 <= 8 -> c / 256 <= 8 ->
  0 <= d -> d mod 256 <= 8 -> d / 256 <= 8 ->
  ones_fold (c + 65536 * d) = c mod 256 + c / 256 + (d mod 256 + d / 256).
Proof.
  intros Hc Hc0 Hc1 Hd Hd0 Hd1.
  pose proof (Z.div_mod c 256 ltac:(lia)) as Hcsplit.
  pose proof (Z.div_mod d 256 ltac:(lia)) as Hdsplit.
  pose proof (Z.mod_pos_bound c 256 ltac:(lia)).
  pose proof (Z.mod_pos_bound d 256 ltac:(lia)).
  assert (0 <= c / 256) by (apply Z.div_pos; lia).
  assert (0 <= d / 256) by (apply Z.div_pos; lia).
  rewrite <- (ones_fold_counts (c mod 256) (c / 256) (d mod 256) (d / 256)) by lia.
  f_equal. lia.
Qed.

Lemma population_count_low (w : nat) (x : Z) :
  population_count w (x mod 2 ^ Z.of_nat w) = population_count w x.
Proof.
  assert (forall n : nat, (n <= w)%nat ->
            population_count n (x mod 2 ^ Z.of_nat w) = population_count n x) as Hn.
  { induction n as [|n IH]; intros Hle; [reflexivity|].
    cbn [population_count]. rewrite Z.mod_pow2_bits_low, IH by lia. reflexivity. }
  apply Hn. lia.
Qed.

Lemma population_count_split (n m : nat) (x : Z) :
  population_count (n + m) x
  = population_count n (Z.shiftr x (Z.of_nat m)) + population_count m x.
Proof.
  induction n as [|n IH]; [simpl; lia|].
  cbn [Nat.add population_count]. rewrite IH, Z.shiftr_spec by lia.
  replace (Z.of_nat n + Z.of_nat m) with (Z.of_nat (n + m)) by lia. lia.
Qed.

Lemma ones_stages (x : Z) : ones x = ones_fold (ones_bytes (ones_nibbles (ones_pairs x))).
Proof.
  unfold ones, ones_fold, ones_bytes, ones_nibbles, ones_pairs. cbv zeta. reflexivity.
Qed.

(** X18: on every unsigned 32-bit word ones is the population count: the
    number of bits set among the 32 bits of the word, a value in [0, 32]. *)
Theorem ones_population_count (x : Z) :
  U32.in_range x -> ones x = population_count 32 x /\ 0 <= ones x <= 32.
Proof.
  unfold U32.in_range, U32.modulus. intros Hx.
  assert (ones x = population_count 32 x) as Heq.
  { rewrite ones_stages.
    assert (x = x mod 65536 + 65536 * (x / 65536)) as Hsplit by lia_div.
    assert (0 <= x mod 65536 < 65536) as Hlo by lia_div.
    assert (0 <= x / 65536 < 65536) as Hhi
      by (change (2 ^ 32) with 4294967296 in Hx; lia_div).
    pose proof (lane_facts _ Hlo) as (Ha & Hb & Hbn & Hc & Hc0 & Hc1 & Hsum).
    pose proof (lane_facts _ Hhi) as (Ha' & Hb' & Hbn' & Hc' & Hc0' & Hc1' & Hsum').
    rewrite Hsplit at 1.
    rewrite ones_pairs_halves, ones_nibbles_halves, ones_bytes_halves, ones_fold_bytes
      by (try assumption; lia).
    rewrite Hsum, Hsum'.
    change 32%nat with (16 + 16)%nat. rewrite population_count_split.
    rewrite <- (population_count_low 16 x).
    rewrite Z.shiftr_div_pow2 by lia.
    change (2 ^ Z.of_nat 16) with 65536. lia. }
  split; [exact Heq|]. rewrite Heq.
  assert (forall (w : nat) (y : Z), 0 <= population_count w y <= Z.of_nat w) as Hbound.
  { induction w as [|w IH]; intros y; cbn [population_count]; [lia|].
    specialize (IH y). destruct (Z.testbit y (Z.of_nat w)); simpl Z.b2z; lia. }
  specialize (Hbound 32%nat x). lia.
Qed.

Lemma ones_population_count_witness :
  ones 0x80000001 = population_count 32 0x80000001 /\ 0 <= ones 0x80000001 <= 32.
Proof.
  apply (ones_population_count 0x80000001). unfold U32.in_range, U32.modulus. lia.
Defined.

